(** * pill: the data-access layer (dataaccess/dataaccess.go)

    A shallow embedding of the Go package [dataaccess]: the tag normalizer,
    the profile store with its history roll-over, the skill tag store and the
    get-or-create protocol of the configuration store, over a model of the
    document store the package talks to. *)

From Stdlib Require Import ZArith Ascii String.
From stdpp Require Import base option list gmap strings.

Local Open Scope string_scope.
Local Open Scope Z_scope.

(** ** UTF-8 and the case of runes

    What Go's packages [unicode/utf8] and [unicode] do for the calls the
    functions of [strings] make.  They are library code, as [strings] is. *)

Module utf8.

Definition RuneError : Z := 0xFFFD.
Definition RuneSelf : Z := 0x80.
Definition MaxRune : Z := 0x10FFFF.
Definition surrogateMin : Z := 0xD800.
Definition surrogateMax : Z := 0xDFFF.

(** The value of a byte, and [byte(z)], the byte of the low eight bits. *)
Definition byteZ (c : ascii) : Z := Z.of_N (N_of_ascii c).
Definition zbyte (z : Z) : ascii := ascii_of_N (Z.to_N (Z.land z 0xFF)).

(** The table [first] together with [acceptRanges]: for the first byte of
    a sequence of more than one byte, the length of the sequence and the
    range its second byte has to lie in; [None] for a byte that starts no
    such sequence. *)
Definition first (b0 : Z) : option (nat * Z * Z) :=
  if (0xC2 <=? b0) && (b0 <=? 0xDF) then Some (2%nat, 0x80, 0xBF)
  else if b0 =? 0xE0 then Some (3%nat, 0xA0, 0xBF)
  else if (0xE1 <=? b0) && (b0 <=? 0xEC) then Some (3%nat, 0x80, 0xBF)
  else if b0 =? 0xED then Some (3%nat, 0x80, 0x9F)
  else if (0xEE <=? b0) && (b0 <=? 0xEF) then Some (3%nat, 0x80, 0xBF)
  else if b0 =? 0xF0 then Some (4%nat, 0x90, 0xBF)
  else if (0xF1 <=? b0) && (b0 <=? 0xF3) then Some (4%nat, 0x80, 0xBF)
  else if b0 =? 0xF4 then Some (4%nat, 0x80, 0x8F)
  else None.

(** A byte outside [locb .. hicb] is no continuation byte. *)
Definition notContinuation (b : Z) : bool := (b <? 0x80) || (0xBF <? b).

(** The runes [for _, c := range s] goes through, in order: the decoding
    of [DecodeRuneInString] at each position, where a byte that does not
    begin a well-formed sequence counts as [RuneError] and is one byte
    wide. *)
Fixpoint runes (s : string) : list Z :=
  match s with
  | EmptyString => []
  | String c0 rest =>
      let b0 := byteZ c0 in
      if b0 <? RuneSelf then b0 :: runes rest
      else
        match first b0 with
        | None => RuneError :: runes rest
        | Some (sz, lo, hi) =>
            match rest with
            | EmptyString => RuneError :: runes rest
            | String c1 rest1 =>
                let b1 := byteZ c1 in
                if (b1 <? lo) || (hi <? b1) then RuneError :: runes rest
                else if (sz <=? 2)%nat then
                  Z.lor (Z.shiftl (Z.land b0 0x1F) 6) (Z.land b1 0x3F) :: runes rest1
                else
                  match rest1 with
                  | EmptyString => RuneError :: runes rest
                  | String c2 rest2 =>
                      let b2 := byteZ c2 in
                      if notContinuation b2 then RuneError :: runes rest
                      else if (sz <=? 3)%nat then
                        Z.lor (Z.lor (Z.shiftl (Z.land b0 0x0F) 12)
                                     (Z.shiftl (Z.land b1 0x3F) 6))
                              (Z.land b2 0x3F)
                        :: runes rest2
                      else
                        match rest2 with
                        | EmptyString => RuneError :: runes rest
                        | String c3 rest3 =>
                            let b3 := byteZ c3 in
                            if notContinuation b3 then RuneError :: runes rest
                            else
                              Z.lor (Z.lor (Z.lor (Z.shiftl (Z.land b0 0x07) 18)
                                                  (Z.shiftl (Z.land b1 0x3F) 12))
                                           (Z.shiftl (Z.land b2 0x3F) 6))
                                    (Z.land b3 0x3F)
                              :: runes rest3
                        end
                  end
            end
        end
  end.

(** [utf8.EncodeRune]: the bytes of the rune; a rune out of range or a
    surrogate half is written as [RuneError]. *)
Definition EncodeRune (r : Z) : string :=
  if (0 <=? r) && (r <=? 0x7F) then String (zbyte r) EmptyString
  else if (0 <=? r) && (r <=? 0x7FF) then
    String (zbyte (Z.lor 0xC0 (Z.shiftr r 6)))
      (String (zbyte (Z.lor 0x80 (Z.land r 0x3F))) EmptyString)
  else
    let r :=
      if (r <? 0) || (MaxRune <? r) || ((surrogateMin <=? r) && (r <=? surrogateMax))
      then RuneError else r in
    if r <=? 0xFFFF then
      String (zbyte (Z.lor 0xE0 (Z.shiftr r 12)))
        (String (zbyte (Z.lor 0x80 (Z.land (Z.shiftr r 6) 0x3F)))
           (String (zbyte (Z.lor 0x80 (Z.land r 0x3F))) EmptyString))
    else
      String (zbyte (Z.lor 0xF0 (Z.shiftr r 18)))
        (String (zbyte (Z.lor 0x80 (Z.land (Z.shiftr r 12) 0x3F)))
           (String (zbyte (Z.lor 0x80 (Z.land (Z.shiftr r 6) 0x3F)))
              (String (zbyte (Z.lor 0x80 (Z.land r 0x3F))) EmptyString))).

End utf8.

Module unicode.

Definition MaxASCII : Z := 0x7F.

(** The lower-case column of the table [CaseRanges], for the runes above
    [MaxASCII]: the runes [Lo .. Hi] and what is added to one of them to
    lower it, [None] standing for [UpperLower], a range of upper-case
    runes at the even places each followed by its lower-case rune.  The
    ranges that lower nothing are left out.  The table is data of Go's
    library, from the simple lower-case mappings of Unicode (here those of
    Unicode 14.0.0). *)
Definition CaseRanges : list (Z * Z * option Z) :=
  [(0xC0, 0xD6, Some 32); (0xD8, 0xDE, Some 32); (0x100, 0x12F, None);
   (0x130, 0x130, Some (-199)); (0x132, 0x137, None); (0x139, 0x148, None);
   (0x14A, 0x177, None); (0x178, 0x178, Some (-121)); (0x179, 0x17E, None);
   (0x181, 0x181, Some 210); (0x182, 0x185, None); (0x186, 0x186, Some 206);
   (0x187, 0x187, Some 1); (0x189, 0x18A, Some 205); (0x18B, 0x18B, Some 1);
   (0x18E, 0x18E, Some 79); (0x18F, 0x18F, Some 202);
   (0x190, 0x190, Some 203); (0x191, 0x191, Some 1);
   (0x193, 0x193, Some 205); (0x194, 0x194, Some 207);
   (0x196, 0x196, Some 211); (0x197, 0x197, Some 209);
   (0x198, 0x198, Some 1); (0x19C, 0x19C, Some 211);
   (0x19D, 0x19D, Some 213); (0x19F, 0x19F, Some 214); (0x1A0, 0x1A5, None);
   (0x1A6, 0x1A6, Some 218); (0x1A7, 0x1A7, Some 1);
   (0x1A9, 0x1A9, Some 218); (0x1AC, 0x1AC, Some 1);
   (0x1AE, 0x1AE, Some 218); (0x1AF, 0x1AF, Some 1);
   (0x1B1, 0x1B2, Some 217); (0x1B3, 0x1B6, None); (0x1B7, 0x1B7, Some 219);
   (0x1B8, 0x1B8, Some 1); (0x1BC, 0x1BC, Some 1); (0x1C4, 0x1C4, Some 2);
   (0x1C5, 0x1C5, Some 1); (0x1C7, 0x1C7, Some 2); (0x1C8, 0x1C8, Some 1);
   (0x1CA, 0x1CA, Some 2); (0x1CB, 0x1DC, None); (0x1DE, 0x1EF, None);
   (0x1F1, 0x1F1, Some 2); (0x1F2, 0x1F5, None); (0x1F6, 0x1F6, Some (-97));
   (0x1F7, 0x1F7, Some (-56)); (0x1F8, 0x21F, None);
   (0x220, 0x220, Some (-130)); (0x222, 0x233, None);
   (0x23A, 0x23A, Some 10795); (0x23B, 0x23B, Some 1);
   (0x23D, 0x23D, Some (-163)); (0x23E, 0x23E, Some 10792);
   (0x241, 0x241, Some 1); (0x243, 0x243, Some (-195));
   (0x244, 0x244, Some 69); (0x245, 0x245, Some 71); (0x246, 0x24F, None);
   (0x370, 0x373, None); (0x376, 0x376, Some 1); (0x37F, 0x37F, Some 116);
   (0x386, 0x386, Some 38); (0x388, 0x38A, Some 37); (0x38C, 0x38C, Some 64);
   (0x38E, 0x38F, Some 63); (0x391, 0x3A1, Some 32); (0x3A3, 0x3AB, Some 32);
   (0x3CF, 0x3CF, Some 8); (0x3D8, 0x3EF, None); (0x3F4, 0x3F4, Some (-60));
   (0x3F7, 0x3F7, Some 1); (0x3F9, 0x3F9, Some (-7)); (0x3FA, 0x3FA, Some 1);
   (0x3FD, 0x3FF, Some (-130)); (0x400, 0x40F, Some 80);
   (0x410, 0x42F, Some 32); (0x460, 0x481, None); (0x48A, 0x4BF, None);
   (0x4C0, 0x4C0, Some 15); (0x4C1, 0x4CE, None); (0x4D0, 0x52F, None);
   (0x531, 0x556, Some 48); (0x10A0, 0x10C5, Some 7264);
   (0x10C7, 0x10C7, Some 7264); (0x10CD, 0x10CD, Some 7264);
   (0x13A0, 0x13EF, Some 38864); (0x13F0, 0x13F5, Some 8);
   (0x1C90, 0x1CBA, Some (-3008)); (0x1CBD, 0x1CBF, Some (-3008));
   (0x1E00, 0x1E95, None); (0x1E9E, 0x1E9E, Some (-7615));
   (0x1EA0, 0x1EFF, None); (0x1F08, 0x1F0F, Some (-8));
   (0x1F18, 0x1F1D, Some (-8)); (0x1F28, 0x1F2F, Some (-8));
   (0x1F38, 0x1F3F, Some (-8)); (0x1F48, 0x1F4D, Some (-8));
   (0x1F59, 0x1F59, Some (-8)); (0x1F5B, 0x1F5B, Some (-8));
   (0x1F5D, 0x1F5D, Some (-8)); (0x1F5F, 0x1F5F, Some (-8));
   (0x1F68, 0x1F6F, Some (-8)); (0x1F88, 0x1F8F, Some (-8));
   (0x1F98, 0x1F9F, Some (-8)); (0x1FA8, 0x1FAF, Some (-8));
   (0x1FB8, 0x1FB9, Some (-8)); (0x1FBA, 0x1FBB, Some (-74));
   (0x1FBC, 0x1FBC, Some (-9)); (0x1FC8, 0x1FCB, Some (-86));
   (0x1FCC, 0x1FCC, Some (-9)); (0x1FD8, 0x1FD9, Some (-8));
   (0x1FDA, 0x1FDB, Some (-100)); (0x1FE8, 0x1FE9, Some (-8));
   (0x1FEA, 0x1FEB, Some (-112)); (0x1FEC, 0x1FEC, Some (-7));
   (0x1FF8, 0x1FF9, Some (-128)); (0x1FFA, 0x1FFB, Some (-126));
   (0x1FFC, 0x1FFC, Some (-9)); (0x2126, 0x2126, Some (-7517));
   (0x212A, 0x212A, Some (-8383)); (0x212B, 0x212B, Some (-8262));
   (0x2132, 0x2132, Some 28); (0x2160, 0x216F, Some 16);
   (0x2183, 0x2183, Some 1); (0x24B6, 0x24CF, Some 26);
   (0x2C00, 0x2C2F, Some 48); (0x2C60, 0x2C60, Some 1);
   (0x2C62, 0x2C62, Some (-10743)); (0x2C63, 0x2C63, Some (-3814));
   (0x2C64, 0x2C64, Some (-10727)); (0x2C67, 0x2C6C, None);
   (0x2C6D, 0x2C6D, Some (-10780)); (0x2C6E, 0x2C6E, Some (-10749));
   (0x2C6F, 0x2C6F, Some (-10783)); (0x2C70, 0x2C70, Some (-10782));
   (0x2C72, 0x2C72, Some 1); (0x2C75, 0x2C75, Some 1);
   (0x2C7E, 0x2C7F, Some (-10815)); (0x2C80, 0x2CE3, None);
   (0x2CEB, 0x2CEE, None); (0x2CF2, 0x2CF2, Some 1); (0xA640, 0xA66D, None);
   (0xA680, 0xA69B, None); (0xA722, 0xA72F, None); (0xA732, 0xA76F, None);
   (0xA779, 0xA77C, None); (0xA77D, 0xA77D, Some (-35332));
   (0xA77E, 0xA787, None); (0xA78B, 0xA78B, Some 1);
   (0xA78D, 0xA78D, Some (-42280)); (0xA790, 0xA793, None);
   (0xA796, 0xA7A9, None); (0xA7AA, 0xA7AA, Some (-42308));
   (0xA7AB, 0xA7AB, Some (-42319)); (0xA7AC, 0xA7AC, Some (-42315));
   (0xA7AD, 0xA7AD, Some (-42305)); (0xA7AE, 0xA7AE, Some (-42308));
   (0xA7B0, 0xA7B0, Some (-42258)); (0xA7B1, 0xA7B1, Some (-42282));
   (0xA7B2, 0xA7B2, Some (-42261)); (0xA7B3, 0xA7B3, Some 928);
   (0xA7B4, 0xA7C3, None); (0xA7C4, 0xA7C4, Some (-48));
   (0xA7C5, 0xA7C5, Some (-42307)); (0xA7C6, 0xA7C6, Some (-35384));
   (0xA7C7, 0xA7CA, None); (0xA7D0, 0xA7D0, Some 1); (0xA7D6, 0xA7D9, None);
   (0xA7F5, 0xA7F5, Some 1); (0xFF21, 0xFF3A, Some 32);
   (0x10400, 0x10427, Some 40); (0x104B0, 0x104D3, Some 40);
   (0x10570, 0x1057A, Some 39); (0x1057C, 0x1058A, Some 39);
   (0x1058C, 0x10592, Some 39); (0x10594, 0x10595, Some 39);
   (0x10C80, 0x10CB2, Some 64); (0x118A0, 0x118BF, Some 32);
   (0x16E40, 0x16E5F, Some 32); (0x1E900, 0x1E921, Some 34)].

(** The range of the table that holds [r]. *)
Fixpoint findRange (r : Z) (ranges : list (Z * Z * option Z))
  : option (Z * Z * option Z) :=
  match ranges with
  | [] => None
  | (lo, hi, delta) :: ranges =>
      if (lo <=? r) && (r <=? hi) then Some (lo, hi, delta)
      else findRange r ranges
  end.

(** [unicode.To(LowerCase, r)]. *)
Definition To_LowerCase (r : Z) : Z :=
  match findRange r CaseRanges with
  | Some (lo, hi, Some delta) => r + delta
  | Some (lo, hi, None) => lo + Z.lor (Z.ldiff (r - lo) 1) 1
  | None => r
  end.

(** [unicode.ToLower]. *)
Definition ToLower (r : Z) : Z :=
  if r <=? MaxASCII then
    if (0x41 <=? r) && (r <=? 0x5A) then r + (0x61 - 0x41) else r
  else To_LowerCase r.

End unicode.

(** ** Go strings

    A Go string is a sequence of bytes; [string] is the same thing.  The
    functions of Go's [strings] package the source calls are library code:
    they are embedded here at the arguments the source gives them. *)

Module strings.

(** [c += 'a' - 'A'] for the bytes ['A'..'Z']; any other byte is kept. *)
Definition lowerByte (c : ascii) : ascii :=
  let n := N_of_ascii c in
  if ((65 <=? n) && (n <=? 90))%N then ascii_of_N (n + 32) else c.

(** No byte of the string is [utf8.RuneSelf] or above. *)
Fixpoint isASCII (s : string) : bool :=
  match s with
  | EmptyString => true
  | String c rest => (utf8.byteZ c <? utf8.RuneSelf) && isASCII rest
  end.

(** The loop of [strings.ToLower] over a string of ASCII bytes. *)
Fixpoint lowerBytes (s : string) : string :=
  match s with
  | EmptyString => EmptyString
  | String c rest => String (lowerByte c) (lowerBytes rest)
  end.

(** [strings.Map(mapping, s)]: the runes of [s], an ill-formed byte
    counting as [utf8.RuneError], each replaced by the encoding of its
    image, a negative image by nothing.  (The library copies the bytes
    before the first rune that changes instead of encoding them again, to
    the same effect: a well-formed sequence is encoded as it was, and an
    ill-formed byte counts as a change.  This is the library of the
    current Go releases; early releases kept an ill-formed byte that
    stands before the first rune that changes.) *)
Definition Map (mapping : Z -> Z) (s : string) : string :=
  foldr (fun c out =>
           let r := mapping c in
           if r <? 0 then out else utf8.EncodeRune r +:+ out)
        EmptyString (utf8.runes s).

(** [strings.ToLower]: the ASCII letters are lowered byte by byte when the
    string is all ASCII, and the runes are mapped through
    [unicode.ToLower] when it is not. *)
Definition ToLower (s : string) : string :=
  if isASCII s then lowerBytes s else Map unicode.ToLower s.

(** [strings.Replace(s, old, new, -1)] for a one-byte [old]: every
    occurrence of the byte is replaced, left to right. *)
Fixpoint Replace (s : string) (old : ascii) (new : string) : string :=
  match s with
  | EmptyString => EmptyString
  | String c rest =>
      if Ascii.eqb c old then new +:+ Replace rest old new
      else String c (Replace rest old new)
  end.

(** [strings.Split(s, sep)] for a one-byte [sep]: the pieces between the
    separators, one more than there are separators. *)
Fixpoint Split (s : string) (sep : ascii) : list string :=
  match s with
  | EmptyString => [EmptyString]
  | String c rest =>
      if Ascii.eqb c sep then EmptyString :: Split rest sep
      else match Split rest sep with
           | [] => [String c EmptyString]
           | piece :: pieces => String c piece :: pieces
           end
  end.

End strings.

(** ** Tag normalizer *)

(** [CleanTag] lowercases input tags and replaces spaces with hyphens. *)
Definition CleanTag (tag : string) : string :=
  strings.Replace (strings.ToLower tag) " " "-".

(** *** What the properties of the cleaned tags are stated with *)

(** A rune that [utf8.EncodeRune] writes as it is. *)
Definition isValid (r : Z) : bool :=
  (0 <=? r) && (r <=? utf8.MaxRune)
  && negb ((utf8.surrogateMin <=? r) && (r <=? utf8.surrogateMax)).

(** The rune [utf8.EncodeRune] writes for [r]. *)
Definition written (r : Z) : Z := if isValid r then r else utf8.RuneError.

(** The encodings of a list of runes, one after the other. *)
Definition encodeAll (rs : list Z) : string :=
  foldr (fun r out => utf8.EncodeRune r +:+ out) EmptyString rs.

(** Every byte of the string is [utf8.RuneSelf] or above. *)
Fixpoint isHigh (s : string) : bool :=
  match s with
  | EmptyString => true
  | String c rest => (utf8.RuneSelf <=? utf8.byteZ c) && isHigh rest
  end.

(** Checking a property of integers over [lo], [lo + 1], ..., [n] of
    them. *)
Fixpoint checkFrom (f : Z -> bool) (lo : Z) (n : nat) : bool :=
  match n with
  | O => true
  | S n => if f lo then checkFrom f (lo + 1) n else false
  end.

(** Checking a property over every rune of every range of a table. *)
Definition checkTable (f : Z -> bool) (ranges : list (Z * Z * option Z)) : bool :=
  forallb (fun '(lo, hi, _) => checkFrom f lo (Z.to_nat (hi - lo + 1))) ranges.

(** A space becomes a hyphen. *)
Definition hyphenRune (r : Z) : Z := if r =? 0x20 then 0x2D else r.




(** [getDomain]: [strings.Split(emailAddress, "@")[1]], lowercased.  The
    index expression panics when the address has no ["@"]: [None]. *)
Definition getDomain (emailAddress : string) : option string :=
  match strings.Split emailAddress "@" !! 1%nat with
  | Some domain => Some (strings.ToLower domain)
  | None => None
  end.

(** ** Data model

    The struct declarations of the package live in files next to
    dataaccess.go; the records below have the fields dataaccess.go reads and
    writes, under the names it uses. *)

(** Modelled from the spec: the type of [LastUpdated] and [Date], a time
    stamp of whole seconds ([time.Unix(secs, 0)]), as the seconds since the
    epoch. *)
Definition Time : Type := Z.

(** Modelled from the spec: [Availability], an opaque value the caller
    supplies wholesale on update. *)
Definition Availability : Type := string.

Module Skill.
(** Modelled from the spec: the [Skill] struct, a (skill name, level)
    pair; a [Skills] slice holds these pairs by value. *)
Record t : Type := mk { Skill : string; Level : Z }.

Definition set_Skill (name : string) (s : t) : t :=
  {| Skill := name; Level := Level s |}.
End Skill.

Module SkillLevel.
(** A snapshot in the skills history: [SkillLevel{Date: ..., Skills: ...}]. *)
Record t : Type := mk { Date : Time; Skills : list Skill.t }.
End SkillLevel.

Module Profile.
Record t : Type := mk {
  EmailAddress : string;
  Domain : string;
  Skills : list Skill.t;
  SkillsHistory : list SkillLevel.t;
  Availability : Availability;
  Version : Z;
  LastUpdated : Time
}.

Definition set_EmailAddress (v : string) (p : t) : t :=
  mk v (Domain p) (Skills p) (SkillsHistory p) (Availability p) (Version p) (LastUpdated p).
Definition set_Domain (v : string) (p : t) : t :=
  mk (EmailAddress p) v (Skills p) (SkillsHistory p) (Availability p) (Version p) (LastUpdated p).
Definition set_Skills (v : list Skill.t) (p : t) : t :=
  mk (EmailAddress p) (Domain p) v (SkillsHistory p) (Availability p) (Version p) (LastUpdated p).
Definition set_SkillsHistory (v : list SkillLevel.t) (p : t) : t :=
  mk (EmailAddress p) (Domain p) (Skills p) v (Availability p) (Version p) (LastUpdated p).
Definition set_Availability (v : string) (p : t) : t :=
  mk (EmailAddress p) (Domain p) (Skills p) (SkillsHistory p) v (Version p) (LastUpdated p).
Definition set_Version (v : Z) (p : t) : t :=
  mk (EmailAddress p) (Domain p) (Skills p) (SkillsHistory p) (Availability p) v (LastUpdated p).
Definition set_LastUpdated (v : Time) (p : t) : t :=
  mk (EmailAddress p) (Domain p) (Skills p) (SkillsHistory p) (Availability p) (Version p) v.
End Profile.

Module ProfileUpdate.
Record t : Type := mk {
  EmailAddress : string;
  Skills : list Skill.t;
  Availability : Availability
}.
End ProfileUpdate.

(** Go's [int], 64 bits wide: [z] as an [int] holds it, wrapped around
    into [-2^63 .. 2^63 - 1]. *)
Definition wrapInt (z : Z) : Z := (z + 2 ^ 63) mod 2 ^ 64 - 2 ^ 63.

(** The zero [time.Time] (January 1, year 1), in seconds since the epoch. *)
Definition zeroTime : Time := -62135596800.

(** Modelled from the spec: [NewProfile], the fresh, empty profile: no
    skills, no history, [Version] 0. *)
Definition NewProfile : Profile.t :=
  Profile.mk "" "" [] [] "" 0 zeroTime.

(** [SkillTag{name}]: the document of the skills collection. *)
Record SkillTag : Type := mkSkillTag { Name : string }.

(** Modelled from the spec: the [Configuration] document, which holds the
    session-encryption key; a nil key is the empty byte string. *)
Record Configuration : Type := mkConfiguration { SessionEncryptionKey : string }.

(** Modelled from the spec: [NewConfiguration(key)]. *)
Definition NewConfiguration (sessionEncryptionKey : string) : Configuration :=
  mkConfiguration sessionEncryptionKey.

(** [Configuration{}]. *)
Definition zeroConfiguration : Configuration := mkConfiguration "".

(** ** Errors *)

(** What can go wrong in the storage layer, other than a missing document. *)
Inductive Failure : Type :=
  | ConnectionRefused
  | SocketTimeout
  | QueryFailed.

(** A Go [error] value of the package: [mgo.ErrNotFound], the duplicate key
    error of an insert, or a storage failure.  [nil] is [None] of
    [option error]. *)
Inductive error : Type :=
  | ErrNotFound
  | ErrDuplicateKey
  | ErrFailure (f : Failure).

#[global] Instance Failure_eq_dec : EqDecision Failure.
Proof. solve_decision. Defined.

#[global] Instance error_eq_dec : EqDecision error.
Proof. solve_decision. Defined.

(** ** The document store and the environment

    The state the package acts on: the three collections, keyed by document
    id, and what the environment decides: which of the coming storage calls
    fail, what the clock reads, and which session-encryption keys the key
    generator hands out. *)
Record World : Type := mkWorld {
  profiles : gmap string Profile.t;
  skills : gmap string SkillTag;
  configuration : gmap string Configuration;
  (** one entry per storage call to come, in order: [Some f] makes the call
      fail with [f]; when the list has run out no call fails *)
  faults : list (option Failure);
  (** [time.Now().Unix()] *)
  clock : Z;
  (** the keys [createSessionEncryptionKey] returns, by draw *)
  keys : nat -> string;
  drawn : nat
}.

Definition set_profiles (v : gmap string Profile.t) (w : World) : World :=
  mkWorld v (skills w) (configuration w) (faults w) (clock w) (keys w) (drawn w).
Definition set_skills (v : gmap string SkillTag) (w : World) : World :=
  mkWorld (profiles w) v (configuration w) (faults w) (clock w) (keys w) (drawn w).
Definition set_configuration (v : gmap string Configuration) (w : World) : World :=
  mkWorld (profiles w) (skills w) v (faults w) (clock w) (keys w) (drawn w).
Definition set_faults (v : list (option Failure)) (w : World) : World :=
  mkWorld (profiles w) (skills w) (configuration w) v (clock w) (keys w) (drawn w).
Definition set_drawn (v : nat) (w : World) : World :=
  mkWorld (profiles w) (skills w) (configuration w) (faults w) (clock w) (keys w) v.

(** A computation of the package: it reads and changes the world and
    returns a value. *)
Definition M (A : Type) : Type := World -> A * World.

Definition ret {A} (a : A) : M A := fun w => (a, w).

Definition bind {A B} (c : M A) (k : A -> M B) : M B :=
  fun w => let '(a, w') := c w in k a w'.

Notation "'let*' x := c 'in' k" := (bind c (fun x => k))
  (at level 10, x pattern, c at level 100, k at level 200).

(** A collection of the database: where its documents are in the world. *)
Record Collection (D : Type) : Type := mkCollection {
  docs : World -> gmap string D;
  set_docs : gmap string D -> World -> World
}.
Arguments docs {D} _ _.
Arguments set_docs {D} _ _ _.

(** [session.DB(da.databaseName).C("profiles")] and its siblings. *)
Definition C_profiles : Collection Profile.t := mkCollection _ profiles set_profiles.
Definition C_skills : Collection SkillTag := mkCollection _ skills set_skills.
Definition C_configuration : Collection Configuration :=
  mkCollection _ configuration set_configuration.

Module mgo.

(** The outcome the environment has scheduled for the next storage call. *)
Definition nextFault : M (option Failure) :=
  fun w => match faults w with
           | [] => (None, w)
           | f :: rest => (f, set_faults rest w)
           end.

(** [mgo.Dial]: the error, if the connection cannot be made. *)
Definition Dial : M (option error) :=
  let* f := nextFault in ret (ErrFailure <$> f).

(** [c.FindId(id).One(result)]: the document is written over [result];
    when there is none the error is [ErrNotFound], and [result] is left
    as it was, as it is when the call fails. *)
Definition FindId_One {D} (c : Collection D) (id : string) (result : D)
  : M (D * option error) :=
  let* f := nextFault in
  match f with
  | Some f => ret (result, Some (ErrFailure f))
  | None => fun w =>
      match docs c w !! id with
      | Some d => ((d, None), w)
      | None => ((result, Some ErrNotFound), w)
      end
  end.

(** [c.Find(query).All(&results)]: the documents the query selects, all
    of them for the query [nil]. *)
Definition Find_All {D} (c : Collection D) (query : option (D -> bool))
  : M (list D * option error) :=
  let* f := nextFault in
  match f with
  | Some f => ret ([], Some (ErrFailure f))
  | None => fun w =>
      let all := (map_to_list (docs c w)).*2 in
      match query with
      | None => ((all, None), w)
      | Some q => ((filter (fun d => q d = true) all, None), w)
      end
  end.

(** [c.UpsertId(id, doc)]: insert or replace. *)
Definition UpsertId {D} (c : Collection D) (id : string) (doc : D) : M (option error) :=
  let* f := nextFault in
  match f with
  | Some f => ret (Some (ErrFailure f))
  | None => fun w => (None, set_docs c (<[id := doc]> (docs c w)) w)
  end.

(** [c.Insert(doc)] of a document whose id is [id]: refused when the id
    is taken. *)
Definition Insert {D} (c : Collection D) (id : string) (doc : D) : M (option error) :=
  let* f := nextFault in
  match f with
  | Some f => ret (Some (ErrFailure f))
  | None => fun w =>
      match docs c w !! id with
      | Some _ => (Some ErrDuplicateKey, w)
      | None => (None, set_docs c (<[id := doc]> (docs c w)) w)
      end
  end.

(** [c.RemoveId(id)]: [ErrNotFound] when no document has the id. *)
Definition RemoveId {D} (c : Collection D) (id : string) : M (option error) :=
  let* f := nextFault in
  match f with
  | Some f => ret (Some (ErrFailure f))
  | None => fun w =>
      match docs c w !! id with
      | Some _ => (None, set_docs c (delete id (docs c w)) w)
      | None => (Some ErrNotFound, w)
      end
  end.

End mgo.

(** [time.Now().Unix()]. *)
Definition time_Now_Unix : M Z := fun w => (clock w, w).

(** Modelled from the spec: [createSessionEncryptionKey], which generates a
    new session-encryption key: the next key of the environment. *)
Definition createSessionEncryptionKey : M string :=
  fun w => (keys w (drawn w), set_drawn (S (drawn w)) w).

(** ** Profile store *)

(** What a call comes to: it returns, or it panics. *)
Inductive outcome (A : Type) : Type :=
  | Returns (a : A)
  | Panics.
Arguments Returns {A} a.
Arguments Panics {A}.

(** [GetProfile] returns a Profile by the email address of the person. *)
Definition GetProfile (emailAddress : string)
  : M (option Profile.t * bool * option error) :=
  let* err := mgo.Dial in
  match err with
  | Some err => ret (None, false, Some err)
  | None =>
      let result := NewProfile in
      let result := Profile.set_EmailAddress emailAddress result in
      let* (result, err) := mgo.FindId_One C_profiles emailAddress result in
      if decide (err = Some ErrNotFound) then ret (Some result, false, None)
      else ret (Some result, true, None)
  end.

(** The loop [for _, skill := range update.Skills { skill.Skill =
    strings.ToLower(skill.Skill) }]: [skill] is a copy of the element of
    the iteration, the assignment writes the copy, and the copy is dropped
    at the end of the iteration; what comes out is the slice. *)
Definition lowerSkills (slice : list Skill.t) : list Skill.t :=
  foldl (fun slice skill =>
           let skill := Skill.set_Skill (strings.ToLower (Skill.Skill skill)) skill in
           slice)
        slice slice.

(** [UpdateProfile] updates a person's profile and returns the newly
    created or updated profile. *)
Definition UpdateProfile (update : ProfileUpdate.t)
  : M (outcome (option Profile.t * option error)) :=
  let* err := mgo.Dial in
  match err with
  | Some err => ret (Returns (None, Some err))
  | None =>
      let* (profile, found, err) := GetProfile (ProfileUpdate.EmailAddress update) in
      match err with
      | Some err => ret (Returns (None, Some err))
      | None =>
          match profile with
          | None => ret Panics  (* a nil [profile]: [GetProfile] returns one only with an error *)
          | Some profile =>
              let profile :=
                if (0 <? length (Profile.Skills profile))%nat then
                  let sl := SkillLevel.mk (Profile.LastUpdated profile) (Profile.Skills profile) in
                  Profile.set_SkillsHistory (Profile.SkillsHistory profile ++ [sl]) profile
                else profile in
              (* [update.Skills] as the loop leaves it *)
              let skills := lowerSkills (ProfileUpdate.Skills update) in
              let profile := Profile.set_Skills skills profile in
              let profile := Profile.set_Availability (ProfileUpdate.Availability update) profile in
              (* [profile.Version++], on an [int] *)
              let profile :=
                Profile.set_Version (wrapInt (Profile.Version profile + 1)) profile in
              let* now := time_Now_Unix in
              let profile := Profile.set_LastUpdated now profile in
              match getDomain (ProfileUpdate.EmailAddress update) with
              | None => ret Panics
              | Some domain =>
                  let profile := Profile.set_Domain domain profile in
                  let* err := mgo.UpsertId C_profiles (Profile.EmailAddress profile) profile in
                  match err with
                  | Some err => ret (Returns (None, Some err))
                  | None => ret (Returns (Some profile, None))
                  end
              end
          end
      end
  end.

(** [UpdateProfile] as it is called, on the [*ProfileUpdate] it takes:
    [None] is the nil pointer.  The first statement of the function reads
    [update.EmailAddress] (line 62), before any connection is made: a nil
    [update] panics there.  [UpdateProfile] above is the function at the
    struct a non-nil [update] points to. *)
Definition UpdateProfile_pointer (update : option ProfileUpdate.t)
  : M (outcome (option Profile.t * option error)) :=
  match update with
  | None => ret Panics
  | Some update => UpdateProfile update
  end.

(** [DeleteProfile] removes a profile specified by email address. *)
Definition DeleteProfile (emailAddress : string) : M (bool * option error) :=
  let* err := mgo.Dial in
  match err with
  | Some err => ret (false, Some err)
  | None =>
      let* err := mgo.RemoveId C_profiles emailAddress in
      match err with
      | Some err => ret (false, Some err)
      | None => ret (true, None)
      end
  end.

(** [ListProfiles] lists all of the profiles that the user has access to
    (filtered by domain). *)
Definition ListProfiles (emailAddress : string)
  : M (outcome (list Profile.t * option error)) :=
  let* err := mgo.Dial in
  match err with
  | Some err => ret (Returns ([], Some err))
  | None =>
      match getDomain emailAddress with
      | None => ret Panics
      | Some domain =>
          let* (results, err) :=
            mgo.Find_All C_profiles
              (Some (fun p => String.eqb (Profile.Domain p) domain)) in
          match err with
          | Some err => ret (Returns ([], Some err))
          | None => ret (Returns (results, None))
          end
      end
  end.

(** ** Skill tag store *)

(** [ListSkillTags] lists the skills used before. *)
Definition ListSkillTags : M (list string * option error) :=
  let* err := mgo.Dial in
  match err with
  | Some err => ret ([], Some err)
  | None =>
      let* (results, err) := mgo.Find_All C_skills None in
      match err with
      | Some err => ret ([], None)
      | None => ret (map Name results, None)
      end
  end.

(** The loop of [AddSkillTags], from the tags still to be written. *)
Fixpoint AddSkillTags_loop (tags : list string) : M (option error) :=
  match tags with
  | [] => ret None
  | tag :: rest =>
      let* err := mgo.UpsertId C_skills tag (mkSkillTag (CleanTag tag)) in
      match err with
      | Some err => ret (Some err)
      | None => AddSkillTags_loop rest
      end
  end.

(** [AddSkillTags] adds a skill tag to the list. *)
Definition AddSkillTags (tags : list string) : M (option error) :=
  let* err := mgo.Dial in
  match err with
  | Some err => ret (Some err)
  | None => AddSkillTags_loop tags
  end.

(** The loop of [DeleteSkillTags]. *)
Fixpoint DeleteSkillTags_loop (tags : list string) : M (option error) :=
  match tags with
  | [] => ret None
  | tag :: rest =>
      let* err := mgo.RemoveId C_skills tag in
      match err with
      | Some err =>
          if decide (err = ErrNotFound) then DeleteSkillTags_loop rest
          else ret (Some err)
      | None => DeleteSkillTags_loop rest
      end
  end.

(** [DeleteSkillTags] deletes a set of tags from the database. *)
Definition DeleteSkillTags (tags : list string) : M (option error) :=
  let* err := mgo.Dial in
  match err with
  | Some err => ret (Some err)
  | None => DeleteSkillTags_loop tags
  end.

(** ** Configuration store *)

Definition getConfiguration : M (Configuration * option error) :=
  let* err := mgo.Dial in
  match err with
  | Some err => ret (zeroConfiguration, Some err)
  | None =>
      let configuration := NewConfiguration "" in
      mgo.FindId_One C_configuration "configuration" configuration
  end.

Definition attemptToCreateConfiguration : M (option error) :=
  let* err := mgo.Dial in
  match err with
  | Some err => ret (Some err)
  | None =>
      let* key := createSessionEncryptionKey in
      let configuration := NewConfiguration key in
      mgo.Insert C_configuration "configuration" configuration
  end.

(** [GetOrCreateConfiguration] gets configuration from the database, or
    creates new configuration. *)
Definition GetOrCreateConfiguration : M (Configuration * option error) :=
  let* (configuration, err) := getConfiguration in
  if decide (err = Some ErrNotFound) then
    let* _ := attemptToCreateConfiguration in
    getConfiguration
  else ret (configuration, err).

(** A world with nothing stored in which no storage call fails. *)
Definition emptyWorld (now : Z) (keys : nat -> string) : World :=
  mkWorld ∅ ∅ ∅ [] now keys 0.

(** The tag documents [AddSkillTags] writes for [tags], in order, on top of
    the collection [m]: each keyed by the tag as given, holding the cleaned
    tag. *)
Definition upsertTags (tags : list string) (m : gmap string SkillTag)
  : gmap string SkillTag :=
  foldl (fun m tag => <[tag := mkSkillTag (CleanTag tag)]> m) m tags.

(** The outcome scheduled for the [n]-th storage call from now. *)
Definition faultAt (n : nat) (w : World) : option Failure :=
  mjoin (faults w !! n).

(** ** Example data *)

Definition exampleKeys (n : nat) : string :=
  match n with
  | O => "key-0"
  | 1%nat => "key-1"
  | _ => "key-n"
  end.

(** bob's profile as a first update at time 100 leaves it. *)
Definition bob : Profile.t :=
  Profile.mk "bob@x.com" "x.com" [Skill.mk "go" 3] [] "free" 1 100.

(** The store holding bob's profile, at time 200, every storage call
    working. *)
Definition bobWorld : World :=
  mkWorld {[ "bob@x.com" := bob ]} ∅ ∅ [] 200 exampleKeys 0.

(** What [UpdateProfile] does to the history of the profile it has read. *)
Definition rolledHistory (profile : Profile.t) : list SkillLevel.t :=
  if (0 <? length (Profile.Skills profile))%nat then
    Profile.SkillsHistory profile
      ++ [SkillLevel.mk (Profile.LastUpdated profile) (Profile.Skills profile)]
  else Profile.SkillsHistory profile.

(** ** The rest of the package, and what its properties are stated with *)

(** [c.DropCollection()]: every document of the collection goes.  The
    server refuses to drop a collection that is not there ("ns not found",
    a query failure); a collection without documents is taken to be such a
    one. *)
Definition DropCollection {D} (c : Collection D) : M (option error) :=
  let* f := mgo.nextFault in
  match f with
  | Some f => ret (Some (ErrFailure f))
  | None => fun w =>
      if decide (docs c w = ∅) then (Some (ErrFailure QueryFailed), w)
      else (None, set_docs c ∅ w)
  end.

(** [DeleteConfiguration] deletes the configuration record. *)
Definition DeleteConfiguration : M (option error) :=
  let* err := mgo.Dial in
  match err with
  | Some err => ret (Some err)
  | None => DropCollection C_configuration
  end.

(** Some byte of the string satisfies [P]. *)
Fixpoint anyByte (P : ascii -> bool) (s : string) : bool :=
  match s with
  | EmptyString => false
  | String b rest => P b || anyByte P rest
  end.

(** The byte [c] occurs in the string. *)
Definition hasByte (c : ascii) (s : string) : bool :=
  anyByte (fun b => Ascii.eqb b c) s.

(** One of the bytes ['A'..'Z']. *)
Definition isUpper (c : ascii) : bool :=
  ((65 <=? N_of_ascii c) && (N_of_ascii c <=? 90))%N.

(** The tag documents gone once [DeleteSkillTags] has removed [tags]. *)
Definition deleteTags (tags : list string) (m : gmap string SkillTag)
  : gmap string SkillTag :=
  foldl (fun m tag => delete tag m) m tags.

(** Every stored profile sits under its own address, and its domain is the
    domain of that address: what the profiles collection looks like when
    [UpdateProfile] is all that has written to it. *)
Definition wellKeyed (ps : gmap string Profile.t) : Prop :=
  forall (k : string) (p : Profile.t),
    ps !! k = Some p ->
    Profile.EmailAddress p = k /\ getDomain k = Some (Profile.Domain p).

(** What is stored: the three collections. *)
Definition stored (w : World)
  : gmap string Profile.t * gmap string SkillTag * gmap string Configuration :=
  (profiles w, skills w, configuration w).

(** * Properties *)

(** ** Tag normalizer *)

Import utf8.


Lemma byteZ_range (c : ascii) : 0 <= byteZ c < 256.
Proof.
  unfold byteZ. pose proof (N_ascii_bounded c). lia.
Qed.

Lemma byteZ_zbyte (v : Z) : 0 <= v < 256 -> byteZ (zbyte v) = v.
Proof.
  intros Hv. unfold byteZ, zbyte.
  change 0xFF with (Z.ones 8). rewrite Z.land_ones by lia.
  rewrite Z.mod_small by lia.
  rewrite N_ascii_embedding by lia. lia.
Qed.

Lemma zbyte_byteZ (c : ascii) : zbyte (byteZ c) = c.
Proof.
  unfold byteZ, zbyte. pose proof (N_ascii_bounded c).
  change 0xFF with (Z.ones 8). rewrite Z.land_ones by lia.
  rewrite Z.mod_small by lia. rewrite N2Z.id. apply ascii_N_embedding.
Qed.

Lemma lor_low_bits (a b k : Z) :
  0 <= k -> 0 <= b < 2 ^ k -> a mod 2 ^ k = 0 -> Z.lor a b = a + b.
Proof.
  intros Hk Hb Ha. rewrite <- Z.add_lor_land.
  assert (Z.land a b = 0) as ->; [| lia].
  rewrite <- (Z.mod_small b (2 ^ k)) by lia.
  rewrite <- (Z.land_ones b k) by lia.
  rewrite (Z.land_comm b), Z.land_assoc, Z.land_ones by lia.
  by rewrite Ha.
Qed.

Lemma lor_low (a b n k : Z) :
  n = 2 ^ k -> 0 <= k -> 0 <= b < n -> a mod n = 0 -> Z.lor a b = a + b.
Proof. intros ->. apply lor_low_bits. Qed.

Ltac ztest :=
  repeat match goal with
    | |- context [Z.ltb ?a ?b] =>
        first [rewrite (proj2 (Z.ltb_ge a b)) by lia
              | rewrite (proj2 (Z.ltb_lt a b)) by lia]
    | |- context [Z.leb ?a ?b] =>
        first [rewrite (proj2 (Z.leb_le a b)) by lia
              | rewrite (proj2 (Z.leb_gt a b)) by lia]
    | |- context [Z.eqb ?a ?b] =>
        first [rewrite (proj2 (Z.eqb_eq a b)) by lia
              | rewrite (proj2 (Z.eqb_neq a b)) by lia]
    end.

Ltac zred := repeat (progress (ztest; cbn [andb orb negb Nat.leb])).

Lemma runes_unfold (c0 : ascii) (rest : string) :
  runes (String c0 rest) =
      let b0 := byteZ c0 in
      if b0 <? RuneSelf then b0 :: runes rest
      else
        match first b0 with
        | None => RuneError :: runes rest
        | Some (sz, lo, hi) =>
            match rest with
            | EmptyString => RuneError :: runes rest
            | String c1 rest1 =>
                let b1 := byteZ c1 in
                if (b1 <? lo) || (hi <? b1) then RuneError :: runes rest
                else if (sz <=? 2)%nat then
                  Z.lor (Z.shiftl (Z.land b0 0x1F) 6) (Z.land b1 0x3F) :: runes rest1
                else
                  match rest1 with
                  | EmptyString => RuneError :: runes rest
                  | String c2 rest2 =>
                      let b2 := byteZ c2 in
                      if notContinuation b2 then RuneError :: runes rest
                      else if (sz <=? 3)%nat then
                        Z.lor (Z.lor (Z.shiftl (Z.land b0 0x0F) 12)
                                     (Z.shiftl (Z.land b1 0x3F) 6))
                              (Z.land b2 0x3F)
                        :: runes rest2
                      else
                        match rest2 with
                        | EmptyString => RuneError :: runes rest
                        | String c3 rest3 =>
                            let b3 := byteZ c3 in
                            if notContinuation b3 then RuneError :: runes rest
                            else
                              Z.lor (Z.lor (Z.lor (Z.shiftl (Z.land b0 0x07) 18)
                                                  (Z.shiftl (Z.land b1 0x3F) 12))
                                           (Z.shiftl (Z.land b2 0x3F) 6))
                                    (Z.land b3 0x3F)
                              :: runes rest3
                        end
                  end
            end
        end.
Proof. reflexivity. Qed.

(** The decoding of a well-formed sequence, by its length, in arithmetic. *)
Lemma runes_1 (c0 : ascii) (rest : string) :
  byteZ c0 < 0x80 -> runes (String c0 rest) = byteZ c0 :: runes rest.
Proof. intros H. rewrite runes_unfold. cbv zeta. unfold RuneSelf. by ztest. Qed.

Lemma land_low (x k : Z) : 0 <= k -> Z.land x (Z.ones k) = x mod 2 ^ k.
Proof. intros. by apply Z.land_ones. Qed.

Lemma combine2 (b0 b1 : Z) :
  Z.lor (Z.shiftl (Z.land b0 0x1F) 6) (Z.land b1 0x3F)
  = (b0 mod 32) * 64 + b1 mod 64.
Proof.
  change 0x1F with (Z.ones 5). change 0x3F with (Z.ones 6).
  rewrite !Z.land_ones, Z.shiftl_mul_pow2 by lia.
  change (2 ^ 5) with 32. change (2 ^ 6) with 64.
  pose proof (Z.mod_pos_bound b1 64).
  apply (lor_low _ _ 64 6); [reflexivity | lia | lia |].
  apply Z.mod_mul. lia.
Qed.

Ltac side := try reflexivity; try lia; Z.div_mod_to_equations; lia.

Lemma combine3 (b0 b1 b2 : Z) :
  Z.lor (Z.lor (Z.shiftl (Z.land b0 0x0F) 12) (Z.shiftl (Z.land b1 0x3F) 6))
        (Z.land b2 0x3F)
  = (b0 mod 16) * 4096 + (b1 mod 64) * 64 + b2 mod 64.
Proof.
  change 0x0F with (Z.ones 4). change 0x3F with (Z.ones 6).
  rewrite !Z.land_ones, !Z.shiftl_mul_pow2 by lia.
  change (2 ^ 4) with 16. change (2 ^ 6) with 64. change (2 ^ 12) with 4096.
  pose proof (Z.mod_pos_bound b1 64). pose proof (Z.mod_pos_bound b2 64).
  rewrite (lor_low (b0 mod 16 * 4096) (b1 mod 64 * 64) 4096 12) by side.
  rewrite (lor_low (b0 mod 16 * 4096 + b1 mod 64 * 64) (b2 mod 64) 64 6) by side.
  reflexivity.
Qed.

Lemma combine4 (b0 b1 b2 b3 : Z) :
  Z.lor (Z.lor (Z.lor (Z.shiftl (Z.land b0 0x07) 18) (Z.shiftl (Z.land b1 0x3F) 12))
               (Z.shiftl (Z.land b2 0x3F) 6))
        (Z.land b3 0x3F)
  = (b0 mod 8) * 262144 + (b1 mod 64) * 4096 + (b2 mod 64) * 64 + b3 mod 64.
Proof.
  change 0x07 with (Z.ones 3). change 0x3F with (Z.ones 6).
  rewrite !Z.land_ones, !Z.shiftl_mul_pow2 by lia.
  change (2 ^ 3) with 8. change (2 ^ 6) with 64. change (2 ^ 12) with 4096.
  change (2 ^ 18) with 262144.
  pose proof (Z.mod_pos_bound b1 64). pose proof (Z.mod_pos_bound b2 64).
  pose proof (Z.mod_pos_bound b3 64).
  rewrite (lor_low (b0 mod 8 * 262144) (b1 mod 64 * 4096) 262144 18) by side.
  rewrite (lor_low (b0 mod 8 * 262144 + b1 mod 64 * 4096) (b2 mod 64 * 64) 4096 12)
    by side.
  rewrite (lor_low (b0 mod 8 * 262144 + b1 mod 64 * 4096 + b2 mod 64 * 64)
             (b3 mod 64) 64 6) by side.
  reflexivity.
Qed.



Lemma lead2_eq (r : Z) : 0 <= r < 2048 -> Z.lor 0xC0 (Z.shiftr r 6) = 192 + r / 64.
Proof.
  intros Hr. rewrite Z.shiftr_div_pow2 by lia. change (2 ^ 6) with 64.
  apply (lor_low _ _ 64 6); side.
Qed.

Lemma lead3_eq (r : Z) : 0 <= r < 65536 -> Z.lor 0xE0 (Z.shiftr r 12) = 224 + r / 4096.
Proof.
  intros Hr. rewrite Z.shiftr_div_pow2 by lia. change (2 ^ 12) with 4096.
  apply (lor_low _ _ 32 5); side.
Qed.

Lemma lead4_eq (r : Z) :
  0 <= r < 2097152 -> Z.lor 0xF0 (Z.shiftr r 18) = 240 + r / 262144.
Proof.
  intros Hr. rewrite Z.shiftr_div_pow2 by lia. change (2 ^ 18) with 262144.
  apply (lor_low _ _ 8 3); side.
Qed.

Lemma cont_eq (x : Z) : Z.lor 0x80 (Z.land x 0x3F) = 128 + x mod 64.
Proof.
  change 0x3F with (Z.ones 6). rewrite Z.land_ones by lia. change (2 ^ 6) with 64.
  pose proof (Z.mod_pos_bound x 64).
  apply (lor_low _ _ 64 6); side.
Qed.

Lemma runes_enc2 (r : Z) (s : string) :
  0x80 <= r <= 0x7FF ->
  runes (String (zbyte (Z.lor 0xC0 (Z.shiftr r 6)))
           (String (zbyte (Z.lor 0x80 (Z.land r 0x3F))) s))
  = r :: runes s.
Proof.
  intros Hr. rewrite lead2_eq, cont_eq by lia.
  assert (exists q m, r = 64 * q + m /\ 0 <= m < 64 /\ 2 <= q <= 31
                      /\ r / 64 = q /\ r mod 64 = m) as (q & m & -> & Hm & Hq & -> & ->).
  { exists (r / 64), (r mod 64). Z.div_mod_to_equations. lia. }
  rewrite runes_unfold. cbv zeta.
  rewrite !byteZ_zbyte by lia. unfold RuneSelf, first, notContinuation.
  zred. rewrite combine2.
  f_equal. Z.div_mod_to_equations. lia.
Qed.

Lemma runes_enc3 (r : Z) (s : string) :
  0x800 <= r <= 0xFFFF -> ~ (0xD800 <= r <= 0xDFFF) ->
  runes (String (zbyte (Z.lor 0xE0 (Z.shiftr r 12)))
           (String (zbyte (Z.lor 0x80 (Z.land (Z.shiftr r 6) 0x3F)))
              (String (zbyte (Z.lor 0x80 (Z.land r 0x3F))) s)))
  = r :: runes s.
Proof.
  intros Hr Hs. rewrite lead3_eq, !cont_eq by lia.
  rewrite Z.shiftr_div_pow2 by lia. change (2 ^ 6) with 64.
  assert (exists q m1 m2, r = 4096 * q + 64 * m1 + m2 /\ 0 <= m1 < 64 /\ 0 <= m2 < 64
                          /\ 0 <= q <= 15
                          /\ r / 4096 = q /\ (r / 64) mod 64 = m1 /\ r mod 64 = m2)
    as (q & m1 & m2 & -> & Hm1 & Hm2 & Hq & -> & -> & ->).
  { exists (r / 4096), ((r / 64) mod 64), (r mod 64). Z.div_mod_to_equations. lia. }
  rewrite runes_unfold. cbv zeta.
  rewrite !byteZ_zbyte by lia. unfold RuneSelf, first, notContinuation.
  assert (q = 0 \/ 1 <= q <= 12 \/ q = 13 \/ 14 <= q <= 15) as Hcase by lia.
  destruct Hcase as [-> | [Hc | [-> | Hc]]]; zred; rewrite combine3;
    f_equal; Z.div_mod_to_equations; lia.
Qed.

Lemma runes_enc4 (r : Z) (s : string) :
  0x10000 <= r <= 0x10FFFF ->
  runes (String (zbyte (Z.lor 0xF0 (Z.shiftr r 18)))
           (String (zbyte (Z.lor 0x80 (Z.land (Z.shiftr r 12) 0x3F)))
              (String (zbyte (Z.lor 0x80 (Z.land (Z.shiftr r 6) 0x3F)))
                 (String (zbyte (Z.lor 0x80 (Z.land r 0x3F))) s))))
  = r :: runes s.
Proof.
  intros Hr. rewrite lead4_eq, !cont_eq by lia.
  rewrite !Z.shiftr_div_pow2 by lia. change (2 ^ 6) with 64. change (2 ^ 12) with 4096.
  assert (exists q m1 m2 m3,
             r = 262144 * q + 4096 * m1 + 64 * m2 + m3
             /\ 0 <= m1 < 64 /\ 0 <= m2 < 64 /\ 0 <= m3 < 64 /\ 0 <= q <= 4
             /\ r / 262144 = q /\ (r / 4096) mod 64 = m1 /\ (r / 64) mod 64 = m2
             /\ r mod 64 = m3)
    as (q & m1 & m2 & m3 & -> & Hm1 & Hm2 & Hm3 & Hq & -> & -> & -> & ->).
  { exists (r / 262144), ((r / 4096) mod 64), ((r / 64) mod 64), (r mod 64).
    Z.div_mod_to_equations. lia. }
  rewrite runes_unfold. cbv zeta.
  rewrite !byteZ_zbyte by lia. unfold RuneSelf, first, notContinuation.
  assert (q = 0 \/ 1 <= q <= 3 \/ q = 4) as Hcase by lia.
  destruct Hcase as [-> | [Hc | ->]]; zred; rewrite combine4;
    f_equal; Z.div_mod_to_equations; lia.
Qed.


Lemma isValid_spec (r : Z) :
  isValid r = true <-> 0 <= r <= 0x10FFFF /\ ~ (0xD800 <= r <= 0xDFFF).
Proof.
  unfold isValid, MaxRune, surrogateMin, surrogateMax.
  rewrite !andb_true_iff, negb_true_iff, andb_false_iff, !Z.leb_le, !Z.leb_gt. lia.
Qed.

(** Decoding what [EncodeRune] has written gives the rune written. *)
Lemma runes_EncodeRune (r : Z) (s : string) :
  runes (EncodeRune r +:+ s) = written r :: runes s.
Proof.
  unfold written. destruct (isValid r) eqn:Hv.
  - apply isValid_spec in Hv as [Hr Hs].
    unfold EncodeRune, MaxRune, surrogateMin, surrogateMax.
    assert (r <= 0x7F \/ 0x80 <= r <= 0x7FF \/ 0x800 <= r < 0xD800
            \/ 0xE000 <= r <= 0xFFFF \/ 0x10000 <= r)
      as [H | [H | [H | [H | H]]]] by lia; zred; cbv [append].
    + rewrite runes_1; rewrite byteZ_zbyte by lia; [reflexivity | lia].
    + by apply runes_enc2.
    + apply runes_enc3; lia.
    + apply runes_enc3; lia.
    + apply runes_enc4. lia.
  - assert (~ (0 <= r <= 0x10FFFF /\ ~ (0xD800 <= r <= 0xDFFF))) as Hn.
    { intros H. apply isValid_spec in H. congruence. }
    unfold EncodeRune, MaxRune, surrogateMin, surrogateMax.
    assert (r < 0 \/ 0x10FFFF < r \/ 0xD800 <= r <= 0xDFFF) as [H | [H | H]] by lia;
      zred; unfold RuneError; zred; cbv [append];
      apply (runes_enc3 0xFFFD); lia.
Qed.

Lemma runes_encodeAll (rs : list Z) : runes (encodeAll rs) = map written rs.
Proof.
  induction rs as [|r rs IH]; [reflexivity |].
  cbn [encodeAll foldr map]. fold (encodeAll rs). by rewrite runes_EncodeRune, IH.
Qed.

(** A property of every rune of every string. *)
Lemma runes_Forall (Q : Z -> Prop) :
  (forall c, Q (byteZ c)) -> Q RuneError ->
  (forall b0 b1, Q (Z.lor (Z.shiftl (Z.land b0 0x1F) 6) (Z.land b1 0x3F))) ->
  (forall b0 b1 b2,
      Q (Z.lor (Z.lor (Z.shiftl (Z.land b0 0x0F) 12) (Z.shiftl (Z.land b1 0x3F) 6))
               (Z.land b2 0x3F))) ->
  (forall b0 b1 b2 b3,
      Q (Z.lor (Z.lor (Z.lor (Z.shiftl (Z.land b0 0x07) 18)
                             (Z.shiftl (Z.land b1 0x3F) 12))
                      (Z.shiftl (Z.land b2 0x3F) 6))
               (Z.land b3 0x3F))) ->
  forall s, Forall Q (runes s).
Proof.
  intros Q1 Qe Q2 Q3 Q4 s.
  remember (String.length s) as n eqn:Hn.
  revert s Hn. induction n as [n IH] using lt_wf_ind. intros s Hn.
  assert (forall t, (String.length t < n)%nat -> Forall Q (runes t)) as IH'.
  { intros t Ht. by apply (IH _ Ht). }
  clear IH. destruct s as [|c0 rest]; [constructor |].
  rewrite runes_unfold. cbv zeta. simpl in Hn.
  assert (Forall Q (runes rest)) as Hrest by (apply IH'; lia).
  destruct (byteZ c0 <? RuneSelf); [by constructor |].
  destruct (first (byteZ c0)) as [[[sz lo] hi]|]; [| by constructor].
  destruct rest as [|c1 rest1]; [by constructor |]. simpl in Hn.
  destruct ((byteZ c1 <? lo) || (hi <? byteZ c1)); [by constructor |].
  destruct (sz <=? 2)%nat; [constructor; [apply Q2 | apply IH'; lia] |].
  destruct rest1 as [|c2 rest2]; [by constructor |]. simpl in Hn.
  destruct (notContinuation (byteZ c2)); [by constructor |].
  destruct (sz <=? 3)%nat; [constructor; [apply Q3 | apply IH'; lia] |].
  destruct rest2 as [|c3 rest3]; [by constructor |]. simpl in Hn.
  destruct (notContinuation (byteZ c3)); [by constructor |].
  constructor; [apply Q4 | apply IH'; lia].
Qed.

Lemma runes_nonneg (s : string) : Forall (fun r => 0 <= r) (runes s).
Proof.
  apply runes_Forall.
  - intros c. pose proof (byteZ_range c). lia.
  - unfold RuneError. lia.
  - intros. rewrite combine2. Z.div_mod_to_equations. lia.
  - intros. rewrite combine3. Z.div_mod_to_equations. lia.
  - intros. rewrite combine4. Z.div_mod_to_equations. lia.
Qed.


Lemma checkFrom_sound (f : Z -> bool) (n : nat) :
  forall lo, checkFrom f lo n = true ->
             forall r, lo <= r < lo + Z.of_nat n -> f r = true.
Proof.
  induction n as [|n IH]; intros lo Hc r Hr; [lia |].
  simpl in Hc. destruct (f lo) eqn:Hlo; [| discriminate].
  destruct (decide (r = lo)) as [-> | Hne]; [exact Hlo |].
  apply (IH (lo + 1) Hc). lia.
Qed.


Lemma findRange_Some (r : Z) (ranges : list (Z * Z * option Z)) lo hi d :
  unicode.findRange r ranges = Some (lo, hi, d) ->
  (lo, hi, d) ∈ ranges /\ lo <= r <= hi.
Proof.
  induction ranges as [|[[lo' hi'] d'] ranges IH]; [discriminate |].
  simpl. destruct ((lo' <=? r) && (r <=? hi')) eqn:Hin.
  - intros [= -> -> ->]. apply andb_true_iff in Hin as [?%Z.leb_le ?%Z.leb_le].
    split; [apply elem_of_cons; by left | lia].
  - intros H. apply IH in H as [? ?]. split; [apply elem_of_cons; by right | done].
Qed.

Lemma checkTable_sound (f : Z -> bool) (ranges : list (Z * Z * option Z)) :
  checkTable f ranges = true ->
  forall r, unicode.findRange r ranges <> None -> f r = true.
Proof.
  intros Hc r Hr.
  destruct (unicode.findRange r ranges) as [[[lo hi] d]|] eqn:Hf; [| done].
  apply findRange_Some in Hf as [Hin Hlohi].
  unfold checkTable in Hc. rewrite forallb_forall in Hc.
  apply list_elem_of_In in Hin. specialize (Hc _ Hin). cbn beta iota in Hc.
  apply (checkFrom_sound _ _ _ Hc). lia.
Qed.

Lemma ToLower_table_idempotent :
  checkTable (fun r => unicode.ToLower (unicode.ToLower r) =? unicode.ToLower r)
    unicode.CaseRanges = true.
Proof. vm_compute. reflexivity. Qed.

Lemma ToLower_table_nonneg :
  checkTable (fun r => 0 <=? unicode.ToLower r) unicode.CaseRanges = true.
Proof. vm_compute. reflexivity. Qed.

(** Lowering a rune a second time changes nothing. *)
Lemma unicode_ToLower_idempotent (r : Z) :
  unicode.ToLower (unicode.ToLower r) = unicode.ToLower r.
Proof.
  destruct (decide (r <= 0x7F)) as [Hr | Hr].
  - unfold unicode.ToLower, unicode.MaxASCII.
    destruct ((0x41 <=? r) && (r <=? 0x5A)) eqn:Hup.
    + apply andb_true_iff in Hup as [?%Z.leb_le ?%Z.leb_le]. by zred.
    + zred. by rewrite Hup.
  - destruct (unicode.findRange r unicode.CaseRanges) eqn:Hf.
    + apply Z.eqb_eq.
      apply (checkTable_sound _ _ ToLower_table_idempotent). congruence.
    + assert (unicode.ToLower r = r) as Hid.
      { unfold unicode.ToLower, unicode.MaxASCII, unicode.To_LowerCase.
        zred. by rewrite Hf. }
      by rewrite !Hid.
Qed.

Lemma unicode_ToLower_nonneg (r : Z) : 0 <= r -> 0 <= unicode.ToLower r.
Proof.
  intros H0. destruct (decide (r <= 0x7F)) as [Hr | Hr].
  - unfold unicode.ToLower, unicode.MaxASCII. zred.
    destruct ((0x41 <=? r) && (r <=? 0x5A)); lia.
  - destruct (unicode.findRange r unicode.CaseRanges) eqn:Hf.
    + apply Z.leb_le.
      apply (checkTable_sound _ _ ToLower_table_nonneg). congruence.
    + unfold unicode.ToLower, unicode.MaxASCII, unicode.To_LowerCase.
      zred. rewrite Hf. lia.
Qed.

Lemma append_cons (c : ascii) (a b : string) : String c a +:+ b = String c (a +:+ b).
Proof. reflexivity. Qed.

Lemma append_empty (b : string) : EmptyString +:+ b = b.
Proof. reflexivity. Qed.

Lemma append_assoc' (a b c : string) : (a +:+ b) +:+ c = a +:+ (b +:+ c).
Proof.
  induction a as [|x a IH]; [reflexivity |]. by rewrite !append_cons, IH.
Qed.


Lemma isHigh_zbyte (v : Z) (s : string) :
  128 <= v < 256 -> isHigh s = true -> isHigh (String (zbyte v) s) = true.
Proof.
  intros Hv Hs. cbn [isHigh]. rewrite byteZ_zbyte by lia. unfold RuneSelf.
  zred. exact Hs.
Qed.

(** A rune outside ASCII is written in bytes outside ASCII. *)
Lemma EncodeRune_high (r : Z) : ~ (0 <= r <= 0x7F) -> isHigh (EncodeRune r) = true.
Proof.
  intros Hr. unfold EncodeRune, MaxRune, surrogateMin, surrogateMax.
  assert (forall r', 0x800 <= r' <= 0xFFFF ->
            isHigh (String (zbyte (Z.lor 0xE0 (Z.shiftr r' 12)))
                      (String (zbyte (Z.lor 0x80 (Z.land (Z.shiftr r' 6) 0x3F)))
                         (String (zbyte (Z.lor 0x80 (Z.land r' 0x3F))) EmptyString)))
            = true) as H3.
  { intros r' Hr'. rewrite lead3_eq, !cont_eq by lia.
    repeat apply isHigh_zbyte; try reflexivity; Z.div_mod_to_equations; lia. }
  assert (r < 0 \/ 0x80 <= r <= 0x7FF \/ 0x800 <= r < 0xD800 \/ 0xD800 <= r <= 0xDFFF
          \/ 0xE000 <= r <= 0xFFFF \/ 0x10000 <= r <= 0x10FFFF \/ 0x10FFFF < r)
    as [H | [H | [H | [H | [H | [H | H]]]]]] by lia; zred;
    try (unfold RuneError; zred; apply H3; lia); try (apply H3; lia).
  - rewrite lead2_eq, cont_eq by lia.
    repeat apply isHigh_zbyte; try reflexivity; Z.div_mod_to_equations; lia.
  - rewrite lead4_eq, !cont_eq by lia.
    repeat apply isHigh_zbyte; try reflexivity; Z.div_mod_to_equations; lia.
Qed.

Lemma EncodeRune_ascii (r : Z) :
  0 <= r <= 0x7F -> EncodeRune r = String (zbyte r) EmptyString.
Proof. intros Hr. unfold EncodeRune. by zred. Qed.

Lemma Replace_app (a b : string) (old : ascii) (new : string) :
  strings.Replace (a +:+ b) old new
  = strings.Replace a old new +:+ strings.Replace b old new.
Proof.
  induction a as [|c a IH]; [reflexivity |].
  rewrite append_cons. cbn [strings.Replace]. rewrite IH.
  destruct (Ascii.eqb c old); [by rewrite append_assoc' | reflexivity].
Qed.

Lemma byte_eqb_false (c d : ascii) : byteZ c <> byteZ d -> Ascii.eqb c d = false.
Proof. intros H. apply Ascii.eqb_neq. intros ->. done. Qed.

Lemma Replace_high (s : string) (old : ascii) (new : string) :
  byteZ old < 0x80 -> isHigh s = true -> strings.Replace s old new = s.
Proof.
  intros Hold. induction s as [|c s IH]; [reflexivity |].
  cbn [isHigh strings.Replace]. unfold RuneSelf.
  intros [Hc Hs]%andb_true_iff. apply Z.leb_le in Hc.
  rewrite byte_eqb_false by lia. by rewrite (IH Hs).
Qed.


Lemma Replace_EncodeRune (r : Z) :
  strings.Replace (EncodeRune r) " " "-" = EncodeRune (hyphenRune r).
Proof.
  unfold hyphenRune. destruct (Z.eqb_spec r 0x20) as [-> | Hne]; [reflexivity |].
  destruct (decide (0 <= r <= 0x7F)) as [Hr | Hr].
  - rewrite EncodeRune_ascii by lia. cbn [strings.Replace].
    rewrite byte_eqb_false; [reflexivity |].
    rewrite byteZ_zbyte by lia. vm_compute (byteZ " "). lia.
  - apply Replace_high; [vm_compute; reflexivity | by apply EncodeRune_high].
Qed.

Lemma Replace_encodeAll (rs : list Z) :
  strings.Replace (encodeAll rs) " " "-" = encodeAll (map hyphenRune rs).
Proof.
  induction rs as [|r rs IH]; [reflexivity |].
  cbn [encodeAll foldr map]. fold (encodeAll rs). fold (encodeAll (map hyphenRune rs)).
  by rewrite Replace_app, Replace_EncodeRune, IH.
Qed.

(** The ASCII loop of [strings.ToLower] agrees with the mapping of runes. *)
Lemma EncodeRune_lowerByte (c : ascii) :
  byteZ c < 0x80 ->
  EncodeRune (unicode.ToLower (byteZ c)) = String (strings.lowerByte c) EmptyString.
Proof.
  destruct c as [[] [] [] [] [] [] [] []]; intros H; vm_compute in H;
    first [discriminate H | vm_compute; reflexivity].
Qed.

Lemma lowerBytes_runes (s : string) :
  strings.isASCII s = true ->
  strings.lowerBytes s = encodeAll (map unicode.ToLower (runes s)).
Proof.
  induction s as [|c s IH]; [reflexivity |].
  cbn [strings.isASCII strings.lowerBytes]. unfold RuneSelf.
  intros [Hc Hs]%andb_true_iff. apply Z.ltb_lt in Hc.
  rewrite runes_1 by exact Hc. cbn [map encodeAll foldr]. fold (encodeAll (map unicode.ToLower (runes s))).
  by rewrite EncodeRune_lowerByte, <- IH.
Qed.

Lemma Map_nonneg (f : Z -> Z) (rs : list Z) :
  Forall (fun r => 0 <= f r) rs ->
  foldr (fun c out => if f c <? 0 then out else EncodeRune (f c) +:+ out)
    EmptyString rs
  = encodeAll (map f rs).
Proof.
  induction 1 as [|r rs Hr _ IH]; [reflexivity |].
  cbn [foldr map encodeAll]. rewrite IH. by zred.
Qed.

(** [strings.ToLower], on every string: the runes, lowered, encoded. *)
Lemma ToLower_runes (s : string) :
  strings.ToLower s = encodeAll (map unicode.ToLower (runes s)).
Proof.
  unfold strings.ToLower. destruct (strings.isASCII s) eqn:Ha.
  - by apply lowerBytes_runes.
  - unfold strings.Map. cbv zeta. apply Map_nonneg.
    eapply Forall_impl; [apply runes_nonneg |]. intros r Hr. cbn beta.
    by apply unicode_ToLower_nonneg.
Qed.







Lemma EncodeRune_invalid (r : Z) :
  isValid r = false -> EncodeRune r = EncodeRune RuneError.
Proof.
  intros Hv.
  assert (~ (0 <= r <= 0x10FFFF /\ ~ (0xD800 <= r <= 0xDFFF))) as Hn.
  { intros H. apply isValid_spec in H. congruence. }
  unfold EncodeRune, MaxRune, surrogateMin, surrogateMax.
  assert (r < 0 \/ 0x10FFFF < r \/ 0xD800 <= r <= 0xDFFF) as [H | [H | H]] by lia;
    zred; unfold RuneError; by zred.
Qed.

(** Encoding, decoding and mapping again gives the same bytes when the
    mapping leaves alone what it gets. *)
Lemma encodeAll_again (g : Z -> Z) (ys : list Z) :
  g RuneError = RuneError ->
  Forall (fun y => g y = y) ys ->
  encodeAll (map g (runes (encodeAll ys))) = encodeAll ys.
Proof.
  intros Hg Hys. rewrite runes_encodeAll.
  induction Hys as [|y ys Hy _ IH]; [reflexivity |].
  cbn [map encodeAll foldr]. fold (encodeAll ys).
  fold (encodeAll (map g (map written ys))). rewrite IH. f_equal.
  unfold written. destruct (isValid y) eqn:Hv; [by rewrite Hy |].
  by rewrite Hg, (EncodeRune_invalid _ Hv).
Qed.

Lemma unicode_ToLower_RuneError : unicode.ToLower RuneError = RuneError.
Proof. vm_compute. reflexivity. Qed.

(** Lowercasing a lowercased string changes nothing. *)
Lemma ToLower_idempotent (s : string) :
  strings.ToLower (strings.ToLower s) = strings.ToLower s.
Proof.
  rewrite (ToLower_runes s), ToLower_runes.
  apply encodeAll_again; [apply unicode_ToLower_RuneError |].
  apply List.Forall_forall. intros y [r [<- _]]%in_map_iff.
  apply unicode_ToLower_idempotent.
Qed.

(** [strings.ToLower] beyond ASCII: U+00C9 becomes U+00E9, the Kelvin
    sign U+212A becomes [k], U+0130 becomes [i], and a byte that is no
    UTF-8 becomes U+FFFD. *)
Example ToLower_beyond_ASCII :
  strings.ToLower (String "195" (String "137" ""))
  = String "195" (String "169" "")
  /\ strings.ToLower (String "226" (String "132" (String "170" ""))) = "k"
  /\ strings.ToLower (String "196" (String "176" "")) = "i"
  /\ strings.ToLower (String "255" "A")
     = String "239" (String "191" (String "189" "a"))
  /\ CleanTag (String "195" (String "137" " T"))
     = String "195" (String "169" "-t").
Proof. repeat split; vm_compute; reflexivity. Qed.

Lemma CleanTag_runes (tag : string) :
  CleanTag tag = encodeAll (map hyphenRune (map unicode.ToLower (runes tag))).
Proof. unfold CleanTag. by rewrite ToLower_runes, Replace_encodeAll. Qed.


(** ** Profile store: reading *)

(** Running a computation one storage call at a time: the storage calls
    are unfolded, then the world is read and written field by field. *)
Ltac sim :=
  cbn [faults set_faults profiles set_profiles skills set_skills
       configuration set_configuration clock keys drawn set_drawn
       docs set_docs C_profiles C_skills C_configuration
       fmap option_fmap option_map mjoin option_join
       lookup list_lookup drop fst snd from_option id].

Ltac run :=
  unfold mgo.Dial, mgo.FindId_One, mgo.UpsertId, mgo.RemoveId, mgo.Insert,
    mgo.Find_All, mgo.nextFault, time_Now_Unix, createSessionEncryptionKey,
    faultAt, bind, ret;
  sim.

(** [GetProfile], outcome by outcome of its two storage calls. *)
Lemma GetProfile_eq (emailAddress : string) (w : World) :
  GetProfile emailAddress w =
  match faultAt 0 w with
  | Some f => ((None, false, Some (ErrFailure f)), set_faults (drop 1 (faults w)) w)
  | None =>
      let w' := set_faults (drop 2 (faults w)) w in
      let fresh := Profile.set_EmailAddress emailAddress NewProfile in
      match faultAt 1 w with
      | Some f => ((Some fresh, true, None), w')
      | None =>
          match profiles w !! emailAddress with
          | Some p => ((Some p, true, None), w')
          | None => ((Some fresh, false, None), w')
          end
      end
  end.
Proof.
  destruct w as [ps sk cf fs ck ks dr].
  unfold GetProfile.
  destruct fs as [|[f|] [|[f'|] fs]]; run; try reflexivity;
    destruct (ps !! emailAddress); repeat case_decide;
    first [reflexivity | congruence].
Qed.

(** A key absent from storage, read without failure: [found = false], nil
    error. *)
Lemma GetProfile_absent (emailAddress : string) (w : World) :
  faultAt 0 w = None -> faultAt 1 w = None ->
  profiles w !! emailAddress = None ->
  fst (GetProfile emailAddress w)
  = (Some (Profile.set_EmailAddress emailAddress NewProfile), false, None).
Proof. intros H0 H1 Hp. by rewrite GetProfile_eq, H0, H1, Hp. Qed.

(** A failed connection is returned to the caller. *)
Lemma GetProfile_dial_failure (emailAddress : string) (w : World) (f : Failure) :
  faultAt 0 w = Some f ->
  fst (GetProfile emailAddress w) = (None, false, Some (ErrFailure f)).
Proof. intros H0. by rewrite GetProfile_eq, H0. Qed.

(** A failed read is not: the caller gets the fresh profile, [found = true]
    and a nil error, whatever is stored. *)
Lemma GetProfile_read_failure (emailAddress : string) (w : World) (f : Failure) :
  faultAt 0 w = None -> faultAt 1 w = Some f ->
  fst (GetProfile emailAddress w)
  = (Some (Profile.set_EmailAddress emailAddress NewProfile), true, None).
Proof. intros H0 H1. by rewrite GetProfile_eq, H0, H1. Qed.

(** C3.  At a read that fails with a storage failure other than not-found
    (here a socket timeout, the connection having been made), [GetProfile]
    returns [found = true] with a nil error, and a fresh profile in place
    of the stored one: the failure does not reach the caller. *)
Theorem GetProfile_read_failure_found_nil_error :
  let w := set_faults [None; Some SocketTimeout] bobWorld in
  profiles w !! "bob@x.com" = Some bob
  /\ fst (GetProfile "bob@x.com" w)
     = (Some (Profile.set_EmailAddress "bob@x.com" NewProfile), true, None).
Proof. split; reflexivity. Qed.

(** C10.  When [GetProfile] returns [found = false] with a nil error, the
    key is absent from storage and the profile returned is not nil: it is
    [NewProfile()] with [EmailAddress] set to the argument, every other
    field as [NewProfile] made it. *)
Theorem GetProfile_not_found_returns_fresh_profile
  (emailAddress : string) (w w' : World) (r : option Profile.t) :
  GetProfile emailAddress w = ((r, false, None), w') ->
  profiles w !! emailAddress = None
  /\ r <> None
  /\ r = Some (Profile.mk emailAddress
                 (Profile.Domain NewProfile) (Profile.Skills NewProfile)
                 (Profile.SkillsHistory NewProfile) (Profile.Availability NewProfile)
                 (Profile.Version NewProfile) (Profile.LastUpdated NewProfile)).
Proof.
  rewrite GetProfile_eq.
  destruct (faultAt 0 w); [intros [=] |].
  destruct (faultAt 1 w); [intros [=] |].
  destruct (profiles w !! emailAddress); intros [= <- _]; done.
Qed.

Lemma GetProfile_not_found_returns_fresh_profile_witness :
  let w := emptyWorld 100 (fun _ => "k") in
  profiles w !! "alice@acme.com" = None
  /\ Some (Profile.mk "alice@acme.com" "" [] [] "" 0 zeroTime) <> None
  /\ Some (Profile.mk "alice@acme.com" "" [] [] "" 0 zeroTime)
     = Some (Profile.mk "alice@acme.com" "" [] [] "" 0 zeroTime).
Proof.
  exact (GetProfile_not_found_returns_fresh_profile "alice@acme.com"
           (emptyWorld 100 exampleKeys) (emptyWorld 100 exampleKeys)
           (Some (Profile.mk "alice@acme.com" "" [] [] "" 0 zeroTime))
           eq_refl).
Defined.

(** ** Profile store: updating *)

(** The loop over the skills of the update leaves the slice as it was. *)
Lemma lowerSkills_id (slice : list Skill.t) : lowerSkills slice = slice.
Proof.
  unfold lowerSkills. generalize slice at 1 3. intros acc.
  induction slice as [|skill slice IH]; simpl; [reflexivity | apply IH].
Qed.

(** [UpdateProfile], outcome by outcome of its four storage calls: its own
    connection, the connection and the read of [GetProfile], the upsert. *)
Lemma UpdateProfile_eq (update : ProfileUpdate.t) (w : World) :
  UpdateProfile update w =
  let emailAddress := ProfileUpdate.EmailAddress update in
  match faultAt 0 w with
  | Some f => (Returns (None, Some (ErrFailure f)), set_faults (drop 1 (faults w)) w)
  | None =>
  match faultAt 1 w with
  | Some f => (Returns (None, Some (ErrFailure f)), set_faults (drop 2 (faults w)) w)
  | None =>
      let fresh := Profile.set_EmailAddress emailAddress NewProfile in
      let profile :=
        match faultAt 2 w with
        | Some _ => fresh
        | None => default fresh (profiles w !! emailAddress)
        end in
      match getDomain emailAddress with
      | None => (Panics, set_faults (drop 3 (faults w)) w)
      | Some domain =>
          let profile' :=
            Profile.mk (Profile.EmailAddress profile) domain
              (ProfileUpdate.Skills update) (rolledHistory profile)
              (ProfileUpdate.Availability update)
              (wrapInt (Profile.Version profile + 1)) (clock w) in
          match faultAt 3 w with
          | Some f =>
              (Returns (None, Some (ErrFailure f)), set_faults (drop 4 (faults w)) w)
          | None =>
              (Returns (Some profile', None),
               set_faults (drop 4 (faults w))
                 (set_profiles
                    (<[Profile.EmailAddress profile := profile']> (profiles w)) w))
          end
      end
  end
  end.
Proof.
  destruct w as [ps sk cf fs ck ks dr].
  unfold UpdateProfile, GetProfile, rolledHistory.
  destruct fs as [|[f0|] [|[f1|] [|[f2|] [|[f3|] fs]]]]; run;
    try reflexivity; rewrite ?lowerSkills_id;
    try (destruct (ps !! ProfileUpdate.EmailAddress update) as [p|]);
    repeat case_decide; try congruence; sim;
    try (destruct (0 <? length (Profile.Skills p))%nat);
    destruct (getDomain (ProfileUpdate.EmailAddress update)); sim;
    reflexivity.
Qed.

Lemma rolledHistory_nonempty (p : Profile.t) :
  Profile.Skills p <> [] ->
  rolledHistory p
  = (Profile.SkillsHistory p
     ++ [SkillLevel.mk (Profile.LastUpdated p) (Profile.Skills p)])%list.
Proof. unfold rolledHistory. destruct (Profile.Skills p); [done | reflexivity]. Qed.

Lemma rolledHistory_empty (p : Profile.t) :
  Profile.Skills p = [] -> rolledHistory p = Profile.SkillsHistory p.
Proof. unfold rolledHistory. by intros ->. Qed.

(** When none of the four storage calls fails, an update of a stored
    profile rolls the skills it replaces over into the history, adds one to
    the version and stores what it returns. *)
Lemma UpdateProfile_existing_read_ok
  (update : ProfileUpdate.t) (w : World) (p : Profile.t) (domain : string) :
  faultAt 0 w = None -> faultAt 1 w = None -> faultAt 2 w = None -> faultAt 3 w = None ->
  profiles w !! ProfileUpdate.EmailAddress update = Some p ->
  getDomain (ProfileUpdate.EmailAddress update) = Some domain ->
  let p' := Profile.mk (Profile.EmailAddress p) domain (ProfileUpdate.Skills update)
              (rolledHistory p) (ProfileUpdate.Availability update)
              (wrapInt (Profile.Version p + 1)) (clock w) in
  UpdateProfile update w
  = (Returns (Some p', None),
     set_faults (drop 4 (faults w))
       (set_profiles (<[Profile.EmailAddress p := p']> (profiles w)) w)).
Proof.
  intros H0 H1 H2 H3 Hp Hd. rewrite UpdateProfile_eq. cbv zeta.
  by rewrite H0, H1, H2, H3, Hp, Hd.
Qed.

(** An update for an address with no stored profile, successful, returns
    and stores a profile of version 1 with an empty history, whether or not
    the read inside it failed. *)
Lemma UpdateProfile_new_profile
  (update : ProfileUpdate.t) (w w' : World) (p' : Profile.t) :
  profiles w !! ProfileUpdate.EmailAddress update = None ->
  UpdateProfile update w = (Returns (Some p', None), w') ->
  Profile.Version p' = 1
  /\ Profile.SkillsHistory p' = []
  /\ Profile.EmailAddress p' = ProfileUpdate.EmailAddress update
  /\ profiles w' !! ProfileUpdate.EmailAddress update = Some p'.
Proof.
  intros Hp. rewrite UpdateProfile_eq. cbv zeta. rewrite Hp.
  destruct (faultAt 0 w); [intros [=] |].
  destruct (faultAt 1 w); [intros [=] |].
  destruct (getDomain _); [| intros [=]].
  destruct (faultAt 3 w); [intros [=] |].
  destruct (faultAt 2 w); intros [= <- <-]; sim;
    (repeat split; [apply lookup_insert_eq]).
Qed.

(** A successful update returns, and stores under the address of the
    profile it returns, the skills of the update as they were given. *)
Lemma UpdateProfile_success_skills
  (update : ProfileUpdate.t) (w w' : World) (p' : Profile.t) :
  UpdateProfile update w = (Returns (Some p', None), w') ->
  Profile.Skills p' = ProfileUpdate.Skills update
  /\ profiles w' !! Profile.EmailAddress p' = Some p'.
Proof.
  rewrite UpdateProfile_eq. cbv zeta.
  destruct (faultAt 0 w); [intros [=] |].
  destruct (faultAt 1 w); [intros [=] |].
  destruct (getDomain _); [| intros [=]].
  destruct (faultAt 3 w); [intros [=] |].
  intros [= <- <-]; sim. split; [reflexivity | apply lookup_insert_eq].
Qed.

(** C1.  bob's stored profile has skills and an empty history.  When the
    read inside [UpdateProfile] fails with a socket timeout and the upsert
    works, the update succeeds, and the profile returned and stored has an
    empty history still: no entry for the skills replaced was appended.
    The failed read is the one [GetProfile] does not report. *)
Theorem UpdateProfile_read_failure_no_history_entry :
  let w := set_faults [None; None; Some SocketTimeout; None] bobWorld in
  let update := ProfileUpdate.mk "bob@x.com" [Skill.mk "rust" 4] "busy" in
  let after := Profile.mk "bob@x.com" "x.com" [Skill.mk "rust" 4] [] "busy" 1 200 in
  profiles w !! "bob@x.com" = Some bob
  /\ Profile.Skills bob = [Skill.mk "go" 3]
  /\ Profile.SkillsHistory bob = []
  /\ fst (UpdateProfile update w) = Returns (Some after, None)
  /\ profiles (snd (UpdateProfile update w)) !! "bob@x.com" = Some after
  /\ Profile.SkillsHistory after = [].
Proof. repeat split; vm_compute; reflexivity. Qed.

(** C2.  bob's stored profile has version 5.  When the read inside
    [UpdateProfile] fails with a socket timeout and the upsert works, the
    update succeeds, and the profile returned and stored has version 1, not
    6.  The failed read is the one [GetProfile] does not report. *)
Theorem UpdateProfile_read_failure_version_restarts :
  let bob5 := Profile.set_Version 5 bob in
  let w := set_faults [None; None; Some SocketTimeout; None]
             (set_profiles {[ "bob@x.com" := bob5 ]} bobWorld) in
  let update := ProfileUpdate.mk "bob@x.com" [Skill.mk "rust" 4] "busy" in
  let after := Profile.mk "bob@x.com" "x.com" [Skill.mk "rust" 4] [] "busy" 1 200 in
  profiles w !! "bob@x.com" = Some bob5
  /\ Profile.Version bob5 = 5
  /\ fst (UpdateProfile update w) = Returns (Some after, None)
  /\ profiles (snd (UpdateProfile update w)) !! "bob@x.com" = Some after
  /\ Profile.Version after = 1.
Proof. repeat split; vm_compute; reflexivity. Qed.

(** C4.  An update with the skill name ["Go"], on an empty store where no
    storage call fails, succeeds, and the profile returned and stored has
    the skill name ["Go"], not its lowercased form ["go"]: the loop over
    the skills of the update lowercases a copy of each skill. *)
Theorem UpdateProfile_skill_name_not_lowercased :
  let w := emptyWorld 100 exampleKeys in
  let update := ProfileUpdate.mk "bob@x.com" [Skill.mk "Go" 3] "free" in
  let after := Profile.mk "bob@x.com" "x.com" [Skill.mk "Go" 3] [] "free" 1 100 in
  fst (UpdateProfile update w) = Returns (Some after, None)
  /\ profiles (snd (UpdateProfile update w)) !! "bob@x.com" = Some after
  /\ Skill.Skill <$> Profile.Skills after = ["Go"]
  /\ strings.ToLower "Go" = "go".
Proof. repeat split; vm_compute; reflexivity. Qed.

(** ** Profile store: deleting *)

(** [DeleteProfile], outcome by outcome of its two storage calls. *)
Lemma DeleteProfile_eq (emailAddress : string) (w : World) :
  DeleteProfile emailAddress w =
  match faultAt 0 w with
  | Some f => ((false, Some (ErrFailure f)), set_faults (drop 1 (faults w)) w)
  | None =>
      let w' := set_faults (drop 2 (faults w)) w in
      match faultAt 1 w with
      | Some f => ((false, Some (ErrFailure f)), w')
      | None =>
          match profiles w !! emailAddress with
          | Some _ => ((true, None), set_profiles (delete emailAddress (profiles w)) w')
          | None => ((false, Some ErrNotFound), w')
          end
      end
  end.
Proof.
  destruct w as [ps sk cf fs ck ks dr].
  unfold DeleteProfile.
  destruct fs as [|[f|] [|[f'|] fs]]; run; try reflexivity;
    destruct (ps !! emailAddress); reflexivity.
Qed.

(** Deleting a profile that is not stored returns [false] and the error
    [ErrNotFound], whenever the two storage calls work. *)
Lemma DeleteProfile_absent (emailAddress : string) (w : World) :
  faultAt 0 w = None -> faultAt 1 w = None ->
  profiles w !! emailAddress = None ->
  fst (DeleteProfile emailAddress w) = (false, Some ErrNotFound).
Proof. intros H0 H1 Hp. by rewrite DeleteProfile_eq, H0, H1, Hp. Qed.

(** C7.  [DeleteProfile] for an address that is not in the store, no
    storage call failing, returns [false] together with the error
    [ErrNotFound]: the error is not nil. *)
Theorem DeleteProfile_absent_returns_ErrNotFound :
  let w := emptyWorld 100 exampleKeys in
  profiles w !! "carol@x.com" = None
  /\ fst (DeleteProfile "carol@x.com" w) = (false, Some ErrNotFound).
Proof. split; reflexivity. Qed.

(** ** Skill tag store *)

(** [ListSkillTags], outcome by outcome of its two storage calls. *)
Lemma ListSkillTags_eq (w : World) :
  ListSkillTags w =
  match faultAt 0 w with
  | Some f => (([], Some (ErrFailure f)), set_faults (drop 1 (faults w)) w)
  | None =>
      let w' := set_faults (drop 2 (faults w)) w in
      match faultAt 1 w with
      | Some f => (([], None), w')
      | None => ((map Name (map_to_list (skills w)).*2, None), w')
      end
  end.
Proof.
  destruct w as [ps sk cf fs ck ks dr].
  unfold ListSkillTags.
  destruct fs as [|[f|] [|[f'|] fs]]; run; reflexivity.
Qed.

(** A failed query of the tag collection comes back as no tags and a nil
    error, whatever the failure. *)
Lemma ListSkillTags_query_failure (w : World) (f : Failure) :
  faultAt 0 w = None -> faultAt 1 w = Some f ->
  fst (ListSkillTags w) = ([], None).
Proof. intros H0 H1. by rewrite ListSkillTags_eq, H0, H1. Qed.

(** C8.  With a tag stored and the query of the tag collection failing
    (the connection having been made), [ListSkillTags] returns no tags and
    a nil error: the failure does not reach the caller. *)
Theorem ListSkillTags_query_failure_nil_error :
  let w := set_faults [None; Some QueryFailed]
             (set_skills {[ "Go Lang" := mkSkillTag "go-lang" ]}
                (emptyWorld 100 exampleKeys)) in
  skills w !! "Go Lang" = Some (mkSkillTag "go-lang")
  /\ fst (ListSkillTags w) = ([], None).
Proof. split; reflexivity. Qed.

(** What is stored under [tag] once [tags] have been written. *)
Lemma upsertTags_lookup (tags : list string) (m : gmap string SkillTag) (tag : string) :
  upsertTags tags m !! tag
  = if decide (tag ∈ tags) then Some (mkSkillTag (CleanTag tag)) else m !! tag.
Proof.
  revert m. induction tags as [|t tags IH]; intros m.
  - unfold upsertTags. simpl foldl.
    destruct (decide (tag ∈ [])) as [H|H]; [by apply elem_of_nil in H | reflexivity].
  - change (upsertTags (t :: tags) m)
      with (upsertTags tags (<[t := mkSkillTag (CleanTag t)]> m)).
    rewrite IH.
    destruct (decide (tag ∈ tags)) as [Hin | Hnin].
    + rewrite decide_True; [reflexivity | apply elem_of_cons; by right].
    + destruct (decide (t = tag)) as [Heq | Hne].
      * rewrite Heq, lookup_insert_eq.
        rewrite decide_True; [reflexivity | apply elem_of_cons; by left].
      * rewrite lookup_insert_ne by exact Hne.
        rewrite decide_False; [reflexivity |].
        intros [E | E]%elem_of_cons; [by subst | done].
Qed.

(** The loop when its [k]-th upsert, counted from 0, is the first to fail:
    the error of that upsert is returned at once, and the tags before it,
    and only they, have been written. *)
Lemma AddSkillTags_loop_failure (tags : list string) :
  forall (k : nat) (w : World) (f : Failure) (rest : list (option Failure)),
    faults w = (replicate k None ++ Some f :: rest)%list ->
    (k < length tags)%nat ->
    AddSkillTags_loop tags w
    = (Some (ErrFailure f),
       set_faults rest (set_skills (upsertTags (take k tags) (skills w)) w)).
Proof.
  induction tags as [|t tags IH]; intros k w f rest Hf Hk; [simpl in Hk; lia |].
  destruct w as [ps sk cf fs ck ks dr]. simpl in Hf. subst fs.
  destruct k as [|k].
  - reflexivity.
  - simpl AddSkillTags_loop. run.
    rewrite (IH k _ f rest); [reflexivity | reflexivity | simpl in Hk; lia].
Qed.

(** The loop when none of its upserts fails: every tag is written, in
    order, and the error is nil. *)
Lemma AddSkillTags_loop_success (tags : list string) :
  forall w : World,
    Forall (eq None) (take (length tags) (faults w)) ->
    AddSkillTags_loop tags w
    = (None,
       set_faults (drop (length tags) (faults w))
         (set_skills (upsertTags tags (skills w)) w)).
Proof.
  induction tags as [|t tags IH]; intros w Hf;
    destruct w as [ps sk cf fs ck ks dr]; simpl in Hf.
  - reflexivity.
  - simpl AddSkillTags_loop. destruct fs as [|o fs].
    + run. rewrite IH; [| sim; rewrite take_nil; constructor].
      sim. by rewrite drop_nil.
    + simpl in Hf. inversion Hf as [|? ? <- Hf']; subst. run.
      rewrite IH; [reflexivity | exact Hf'].
Qed.

(** C6.  [AddSkillTags] writes its tags in order, each as a document keyed
    by the tag as given and holding the cleaned tag.  When no storage call
    fails every tag is written and the error is nil.  When the upsert of
    the tag at position [k] is the first to fail, that error is returned at
    once: the tags before position [k] are stored (no roll-back) and
    nothing else in the collection has changed (the tags from position [k]
    on were not written). *)
Theorem AddSkillTags_in_order_until_first_failure (tags : list string) (w : World) :
  (Forall (eq None) (take (S (length tags)) (faults w)) ->
   fst (AddSkillTags tags w) = None
   /\ skills (snd (AddSkillTags tags w)) = upsertTags tags (skills w)
   /\ (forall tag, tag ∈ tags ->
         skills (snd (AddSkillTags tags w)) !! tag = Some (mkSkillTag (CleanTag tag))))
  /\ (forall (k : nat) (f : Failure) (rest : list (option Failure)),
        faults w = (None :: replicate k None ++ Some f :: rest)%list ->
        (k < length tags)%nat ->
        fst (AddSkillTags tags w) = Some (ErrFailure f)
        /\ skills (snd (AddSkillTags tags w)) = upsertTags (take k tags) (skills w)
        /\ (forall tag, tag ∈ take k tags ->
              skills (snd (AddSkillTags tags w)) !! tag
              = Some (mkSkillTag (CleanTag tag)))
        /\ (forall tag, tag ∉ take k tags ->
              skills (snd (AddSkillTags tags w)) !! tag = skills w !! tag)).
Proof.
  split.
  - intros Hf.
    assert (AddSkillTags tags w
            = (None,
               set_faults (drop (S (length tags)) (faults w))
                 (set_skills (upsertTags tags (skills w)) w))) as ->.
    { destruct w as [ps sk cf fs ck ks dr]. unfold AddSkillTags.
      destruct fs as [|o fs]; run.
      - rewrite AddSkillTags_loop_success; [| sim; rewrite take_nil; constructor].
        sim. by rewrite drop_nil.
      - simpl in Hf. inversion Hf as [|? ? <- Hf']; subst. sim.
        rewrite AddSkillTags_loop_success; [reflexivity | exact Hf']. }
    sim. repeat split. intros tag Hin. rewrite upsertTags_lookup.
    by rewrite decide_True.
  - intros k f rest Hf Hk.
    assert (AddSkillTags tags w
            = (Some (ErrFailure f),
               set_faults rest
                 (set_skills (upsertTags (take k tags) (skills w)) w))) as ->.
    { destruct w as [ps sk cf fs ck ks dr]. simpl in Hf. subst fs.
      unfold AddSkillTags. run.
      rewrite (AddSkillTags_loop_failure tags k _ f rest);
        [reflexivity | reflexivity | exact Hk]. }
    sim. repeat split.
    + intros tag Hin. rewrite upsertTags_lookup. by rewrite decide_True.
    + intros tag Hnin. rewrite upsertTags_lookup. by rewrite decide_False.
Qed.

Lemma AddSkillTags_in_order_until_first_failure_witness :
  let tags := ["Go Lang"; "Rust"; "C"] in
  let w := set_faults [None; None; Some QueryFailed] (emptyWorld 100 exampleKeys) in
  let w0 := emptyWorld 100 exampleKeys in
  (fst (AddSkillTags tags w0) = None
   /\ skills (snd (AddSkillTags tags w0)) = upsertTags tags (skills w0)
   /\ (forall tag, tag ∈ tags ->
         skills (snd (AddSkillTags tags w0)) !! tag = Some (mkSkillTag (CleanTag tag))))
  /\ (fst (AddSkillTags tags w) = Some (ErrFailure QueryFailed)
      /\ skills (snd (AddSkillTags tags w)) = upsertTags (take 1 tags) (skills w)
      /\ (forall tag, tag ∈ take 1 tags ->
            skills (snd (AddSkillTags tags w)) !! tag
            = Some (mkSkillTag (CleanTag tag)))
      /\ (forall tag, tag ∉ take 1 tags ->
            skills (snd (AddSkillTags tags w)) !! tag = skills w !! tag)).
Proof.
  split.
  - apply (proj1 (AddSkillTags_in_order_until_first_failure
                    ["Go Lang"; "Rust"; "C"] (emptyWorld 100 exampleKeys))).
    simpl. constructor.
  - apply (proj2 (AddSkillTags_in_order_until_first_failure
                    ["Go Lang"; "Rust"; "C"]
                    (set_faults [None; None; Some QueryFailed]
                       (emptyWorld 100 exampleKeys)))
             1%nat QueryFailed []).
    + reflexivity.
    + simpl. lia.
Defined.

(** ** Configuration store *)

(** [getConfiguration], outcome by outcome of its two storage calls. *)
Lemma getConfiguration_eq (w : World) :
  getConfiguration w =
  match faultAt 0 w with
  | Some f => ((zeroConfiguration, Some (ErrFailure f)), set_faults (drop 1 (faults w)) w)
  | None =>
      let w' := set_faults (drop 2 (faults w)) w in
      match faultAt 1 w with
      | Some f => ((NewConfiguration "", Some (ErrFailure f)), w')
      | None =>
          match configuration w !! "configuration" with
          | Some c => ((c, None), w')
          | None => ((NewConfiguration "", Some ErrNotFound), w')
          end
      end
  end.
Proof.
  destruct w as [ps sk cf fs ck ks dr].
  unfold getConfiguration.
  destruct fs as [|[f|] [|[f'|] fs]]; run; try reflexivity;
    destruct (cf !! "configuration"); reflexivity.
Qed.

(** A read of the configuration that returns a nil error returns the
    stored document, and leaves the collection as it was. *)
Lemma getConfiguration_success (w w' : World) (c : Configuration) :
  getConfiguration w = ((c, None), w') ->
  configuration w !! "configuration" = Some c
  /\ configuration w' = configuration w.
Proof.
  rewrite getConfiguration_eq.
  destruct (faultAt 0 w); [intros [=] |].
  destruct (faultAt 1 w); [intros [=] |]. cbv zeta.
  destruct (configuration w !! "configuration"); intros [= <- <-]; done.
Qed.

(** With the document stored, a read returns it, or else the error of a
    failed storage call. *)
Lemma getConfiguration_present (w w' : World) (c c' : Configuration) (e : option error) :
  configuration w !! "configuration" = Some c ->
  getConfiguration w = ((c', e), w') ->
  (e = None /\ c' = c) \/ (exists f, e = Some (ErrFailure f)).
Proof.
  intros Hc. rewrite getConfiguration_eq, Hc.
  destruct (faultAt 0 w); [intros [= <- <- <-]; eauto |].
  destruct (faultAt 1 w); intros [= <- <- <-]; eauto.
Qed.

(** [GetOrCreateConfiguration] in terms of the calls it makes. *)
Lemma GetOrCreateConfiguration_eq (w : World) :
  GetOrCreateConfiguration w =
  let '((c, e), w1) := getConfiguration w in
  if decide (e = Some ErrNotFound)
  then getConfiguration (snd (attemptToCreateConfiguration w1))
  else ((c, e), w1).
Proof.
  unfold GetOrCreateConfiguration, bind.
  destruct (getConfiguration w) as [[c e] w1].
  case_decide; [| reflexivity].
  by destruct (attemptToCreateConfiguration w1).
Qed.

(** C5.  When the configuration document is absent,
    [GetOrCreateConfiguration] attempts the insert, drops whatever error the
    attempt returns, and returns what a second read then finds; with no
    storage call failing that is the configuration just generated, now
    stored.  Two calls in a row, nothing else touching the store between
    them, that both return a nil error return the same session-encryption
    key. *)
Theorem GetOrCreateConfiguration_create_once (w : World) :
  (forall (c : Configuration) (w1 w2 : World) (e : option error),
     getConfiguration w = ((c, Some ErrNotFound), w1) ->
     attemptToCreateConfiguration w1 = (e, w2) ->
     GetOrCreateConfiguration w = getConfiguration w2)
  /\ (faults w = [] ->
      configuration w !! "configuration" = None ->
      let created := NewConfiguration (keys w (drawn w)) in
      fst (GetOrCreateConfiguration w) = (created, None)
      /\ configuration (snd (GetOrCreateConfiguration w)) !! "configuration"
         = Some created)
  /\ (forall (c1 c2 : Configuration) (w1 w2 : World),
        GetOrCreateConfiguration w = ((c1, None), w1) ->
        GetOrCreateConfiguration w1 = ((c2, None), w2) ->
        SessionEncryptionKey c1 = SessionEncryptionKey c2).
Proof.
  split; [| split].
  - intros c w1 w2 e Hget Hcreate.
    rewrite GetOrCreateConfiguration_eq, Hget, Hcreate.
    by rewrite decide_True.
  - intros Hf Hc. destruct w as [ps sk cf fs ck ks dr]. simpl in Hf, Hc. subst fs.
    rewrite GetOrCreateConfiguration_eq, getConfiguration_eq. run. rewrite Hc.
    rewrite decide_True by reflexivity.
    unfold attemptToCreateConfiguration. run. rewrite Hc. sim.
    rewrite getConfiguration_eq. run. rewrite lookup_insert_eq.
    sim. split; [reflexivity | apply lookup_insert_eq].
  - intros c1 c2 w1 w2 H1 H2.
    assert (configuration w1 !! "configuration" = Some c1) as Hstored.
    { rewrite GetOrCreateConfiguration_eq in H1.
      destruct (getConfiguration w) as [[c e] w'] eqn:Hget.
      case_decide as He.
      - apply getConfiguration_success in H1 as [Hc Hsame]. by rewrite Hsame.
      - injection H1 as -> -> ->.
        apply getConfiguration_success in Hget as [Hc Hsame]. by rewrite Hsame. }
    rewrite GetOrCreateConfiguration_eq in H2.
    destruct (getConfiguration w1) as [[c e] w'] eqn:Hget.
    destruct (getConfiguration_present _ _ _ _ _ Hstored Hget) as [[-> ->] | [f ->]].
    + rewrite decide_False in H2 by discriminate. by injection H2 as -> _.
    + rewrite decide_False in H2 by discriminate. discriminate H2.
Qed.

Lemma GetOrCreateConfiguration_create_once_witness :
  let w := emptyWorld 100 exampleKeys in
  let w1 := snd (GetOrCreateConfiguration w) in
  (fst (GetOrCreateConfiguration w) = (NewConfiguration "key-0", None)
   /\ configuration w1 !! "configuration" = Some (NewConfiguration "key-0"))
  /\ SessionEncryptionKey (fst (fst (GetOrCreateConfiguration w)))
     = SessionEncryptionKey (fst (fst (GetOrCreateConfiguration w1))).
Proof.
  split.
  - exact (proj1 (proj2 (GetOrCreateConfiguration_create_once
                           (emptyWorld 100 exampleKeys)))
             eq_refl eq_refl).
  - exact (proj2 (proj2 (GetOrCreateConfiguration_create_once
                           (emptyWorld 100 exampleKeys)))
             _ _ _ (snd (GetOrCreateConfiguration
                           (snd (GetOrCreateConfiguration (emptyWorld 100 exampleKeys)))))
             eq_refl eq_refl).
Defined.

(** The second half of C5 without the proviso that both calls return a nil
    error does not hold: with no document stored and the insert of the
    first call failing, the first call returns a configuration without a
    key together with [ErrNotFound], and the second call, on the store as
    the first left it, creates and returns a configuration with a
    key. *)
Lemma GetOrCreateConfiguration_failed_insert_keys_differ :
  let w := set_faults [None; None; None; Some SocketTimeout]
             (emptyWorld 100 exampleKeys) in
  let w1 := snd (GetOrCreateConfiguration w) in
  configuration w !! "configuration" = None
  /\ fst (GetOrCreateConfiguration w) = (NewConfiguration "", Some ErrNotFound)
  /\ fst (GetOrCreateConfiguration w1) = (NewConfiguration "key-1", None)
  /\ SessionEncryptionKey (fst (fst (GetOrCreateConfiguration w)))
     <> SessionEncryptionKey (fst (fst (GetOrCreateConfiguration w1))).
Proof. repeat split; vm_compute; congruence. Qed.

(** ** Sibling paths and the end-to-end run *)

(** [DeleteSkillTags] takes a tag that is not stored in its stride: the
    error [ErrNotFound] of the removal is dropped. *)
Lemma DeleteSkillTags_absent (tag : string) (w : World) :
  faultAt 0 w = None -> faultAt 1 w = None ->
  skills w !! tag = None ->
  fst (DeleteSkillTags [tag] w) = None.
Proof.
  intros H0 H1 Hs. destruct w as [ps sk cf fs ck ks dr]. simpl in Hs.
  unfold DeleteSkillTags. simpl DeleteSkillTags_loop.
  destruct fs as [|[f|] [|[f'|] fs]]; try discriminate; run; by rewrite Hs.
Qed.

(** [ListProfiles] returns the error of a failed query. *)
Lemma ListProfiles_query_failure (emailAddress domain : string) (w : World) (f : Failure) :
  faultAt 0 w = None -> faultAt 1 w = Some f ->
  getDomain emailAddress = Some domain ->
  fst (ListProfiles emailAddress w) = Returns ([], Some (ErrFailure f)).
Proof.
  intros H0 H1 Hd. destruct w as [ps sk cf fs ck ks dr].
  unfold ListProfiles.
  destruct fs as [|[f0|] [|[f1|] fs]]; try discriminate; run; rewrite Hd; run.
  by injection H1 as ->.
Qed.

(** The run of the spec: a first update of bob@x.com with go at level 3
    gives version 1 and no history; a second, with rust at level 4, gives
    version 2, the first skills in the history under the date of the first
    update, and rust as the current skills. *)
Example UpdateProfile_twice :
  let first := ProfileUpdate.mk "bob@x.com" [Skill.mk "go" 3] "free" in
  let second := ProfileUpdate.mk "bob@x.com" [Skill.mk "rust" 4] "free" in
  let w1 := snd (UpdateProfile first (emptyWorld 100 exampleKeys)) in
  let w1 := mkWorld (profiles w1) (skills w1) (configuration w1) (faults w1) 200
              (keys w1) (drawn w1) in
  profiles w1 !! "bob@x.com" = Some bob
  /\ fst (UpdateProfile second w1)
     = Returns
         (Some (Profile.mk "bob@x.com" "x.com" [Skill.mk "rust" 4]
                  [SkillLevel.mk 100 [Skill.mk "go" 3]] "free" 2 200),
          None).
Proof. split; vm_compute; reflexivity. Qed.

(** * Further properties of the package *)

(** ** Addresses and domains *)

Lemma Split_nonempty (s : string) (sep : ascii) : strings.Split s sep <> [].
Proof.
  destruct s as [|c s]; simpl; [done |].
  destruct (Ascii.eqb c sep); [done |]. by destruct (strings.Split s sep).
Qed.

(** There is a second piece exactly when the separator occurs. *)
Lemma Split_second_piece (s : string) (sep : ascii) :
  strings.Split s sep !! 1%nat = None <-> hasByte sep s = false.
Proof.
  unfold hasByte. induction s as [|c s IH]; simpl; [done |].
  destruct (Ascii.eqb c sep); simpl.
  - pose proof (Split_nonempty s sep). destruct (strings.Split s sep); [done |].
    simpl. split; discriminate.
  - pose proof (Split_nonempty s sep). destruct (strings.Split s sep); [done |].
    exact IH.
Qed.

(** The text up to the first separator is the first piece. *)
Lemma Split_app_sep (a b : string) (sep : ascii) :
  hasByte sep a = false ->
  strings.Split (a +:+ String sep b) sep = a :: strings.Split b sep.
Proof.
  unfold hasByte. induction a as [|c a IH]; simpl.
  - intros _. by rewrite Ascii.eqb_refl.
  - destruct (Ascii.eqb c sep); simpl; [discriminate |].
    intros H. by rewrite (IH H).
Qed.

Lemma Split_no_sep (s : string) (sep : ascii) :
  hasByte sep s = false -> strings.Split s sep = [s].
Proof.
  unfold hasByte. induction s as [|c s IH]; simpl; [done |].
  destruct (Ascii.eqb c sep); simpl; [discriminate |].
  intros H. by rewrite (IH H).
Qed.

(** X1.  [getDomain] panics exactly on the addresses in which no ["@"]
    occurs; on every other address it returns a domain. *)
Theorem getDomain_panics_iff_no_at (emailAddress : string) :
  getDomain emailAddress = None <-> hasByte "@" emailAddress = false.
Proof.
  unfold getDomain. rewrite <- Split_second_piece.
  destruct (strings.Split emailAddress "@" !! 1%nat); split; done.
Qed.

(** X2.  For an address [local@domain], where no ["@"] occurs in [local]
    or in [domain], [getDomain] is the lowercased [domain]; and when more
    follows behind a second ["@"], it is still the lowercased text between
    the first ["@"] and the second. *)
Theorem getDomain_between_first_and_second_at (local domain rest : string) :
  hasByte "@" local = false ->
  hasByte "@" domain = false ->
  getDomain (local +:+ "@" +:+ domain) = Some (strings.ToLower domain)
  /\ getDomain (local +:+ "@" +:+ domain +:+ "@" +:+ rest)
     = Some (strings.ToLower domain).
Proof.
  intros Hl Hd. unfold getDomain. split.
  - change (local +:+ "@" +:+ domain) with (local +:+ String "@" domain).
    by rewrite (Split_app_sep _ _ _ Hl), (Split_no_sep _ _ Hd).
  - change (local +:+ "@" +:+ domain +:+ "@" +:+ rest)
      with (local +:+ String "@" (domain +:+ String "@" rest)).
    by rewrite (Split_app_sep _ _ _ Hl), (Split_app_sep _ _ _ Hd).
Qed.

Lemma getDomain_between_first_and_second_at_witness :
  getDomain "Bob@Acme.COM" = Some "acme.com"
  /\ getDomain "Bob@Acme.COM@evil.org" = Some "acme.com".
Proof.
  exact (getDomain_between_first_and_second_at "Bob" "Acme.COM" "evil.org"
           eq_refl eq_refl).
Defined.

(** ** Cleaned tags *)

Lemma hasByte_app (c : ascii) (a b : string) :
  hasByte c (a +:+ b) = hasByte c a || hasByte c b.
Proof.
  unfold hasByte. induction a as [|x a IH]; [reflexivity |].
  rewrite append_cons. cbn [anyByte]. by rewrite IH, orb_assoc.
Qed.

(** Once every [old] has been replaced by a string without it, there is
    none left. *)
Lemma Replace_removes (s : string) (old : ascii) (new : string) :
  hasByte old new = false -> hasByte old (strings.Replace s old new) = false.
Proof.
  intros Hnew. induction s as [|c s IH]; [reflexivity |].
  cbn [strings.Replace]. destruct (Ascii.eqb c old) eqn:Hc.
  - by rewrite hasByte_app, Hnew, IH.
  - unfold hasByte in *. cbn [anyByte]. by rewrite Hc, IH.
Qed.

Lemma anyByte_app (P : ascii -> bool) (a b : string) :
  anyByte P (a +:+ b) = anyByte P a || anyByte P b.
Proof.
  induction a as [|x a IH]; [reflexivity |].
  rewrite append_cons. cbn [anyByte]. by rewrite IH, orb_assoc.
Qed.

Lemma isUpper_byteZ (c : ascii) :
  isUpper c = (0x41 <=? byteZ c) && (byteZ c <=? 0x5A).
Proof.
  destruct c as [[] [] [] [] [] [] [] []]; vm_compute; reflexivity.
Qed.

Lemma isHigh_no_upper (s : string) : isHigh s = true -> anyByte isUpper s = false.
Proof.
  induction s as [|c s IH]; [reflexivity |]. cbn [isHigh anyByte]. unfold RuneSelf.
  intros [Hc Hs]%andb_true_iff. apply Z.leb_le in Hc.
  rewrite (IH Hs), isUpper_byteZ. by zred.
Qed.

Lemma ToLower_table_no_capital :
  checkTable (fun r => negb ((0x41 <=? hyphenRune (unicode.ToLower r))
                             && (hyphenRune (unicode.ToLower r) <=? 0x5A)))
    unicode.CaseRanges = true.
Proof. vm_compute. reflexivity. Qed.

(** No rune is lowered, and cleaned, to a capital letter of the
    alphabet. *)
Lemma cleaned_rune_no_capital (r : Z) :
  ~ (0x41 <= hyphenRune (unicode.ToLower r) <= 0x5A).
Proof.
  destruct (decide (r <= 0x7F)) as [Hr | Hr].
  - unfold hyphenRune, unicode.ToLower, unicode.MaxASCII. zred.
    destruct ((0x41 <=? r) && (r <=? 0x5A)) eqn:Hup.
    + apply andb_true_iff in Hup as [?%Z.leb_le ?%Z.leb_le]. zred. lia.
    + apply andb_false_iff in Hup as [?%Z.leb_gt | ?%Z.leb_gt];
        destruct (Z.eqb_spec r 0x20); lia.
  - destruct (unicode.findRange r unicode.CaseRanges) eqn:Hf.
    + assert (unicode.findRange r unicode.CaseRanges <> None) as Hin by congruence.
      pose proof (checkTable_sound _ _ ToLower_table_no_capital r Hin) as Hc.
      apply negb_true_iff, andb_false_iff in Hc as [?%Z.leb_gt | ?%Z.leb_gt]; lia.
    + unfold hyphenRune, unicode.ToLower, unicode.MaxASCII, unicode.To_LowerCase.
      zred. rewrite Hf. zred. lia.
Qed.

(** X4.  In a cleaned tag there is no space and none of the letters
    ['A'..'Z']. *)
Theorem CleanTag_no_space_no_upper (tag : string) :
  hasByte " " (CleanTag tag) = false
  /\ anyByte isUpper (CleanTag tag) = false.
Proof.
  split; [by apply Replace_removes |].
  rewrite CleanTag_runes, map_map.
  induction (runes tag) as [|r rs IH]; [reflexivity |].
  cbn [map encodeAll foldr].
  fold (encodeAll (map (fun x => hyphenRune (unicode.ToLower x)) rs)).
  rewrite anyByte_app, IH, orb_false_r.
  pose proof (cleaned_rune_no_capital r) as Hr.
  set (y := hyphenRune (unicode.ToLower r)) in *.
  destruct (decide (0 <= y <= 0x7F)) as [Hy | Hy].
  - rewrite EncodeRune_ascii by exact Hy. cbn [anyByte].
    rewrite orb_false_r, isUpper_byteZ, byteZ_zbyte by lia.
    destruct (Z.leb_spec 0x41 y), (Z.leb_spec y 0x5A); cbn [andb]; try reflexivity. lia.
  - apply isHigh_no_upper. by apply EncodeRune_high.
Qed.

(** ** Lowercasing and the split at ["@"] *)

Lemma first_lo (b0 : Z) (sz : nat) (lo hi : Z) :
  first b0 = Some (sz, lo, hi) -> 0x80 <= lo.
Proof.
  unfold first.
  repeat match goal with
         | |- context [if ?c then _ else _] => destruct c
         end; intros [= <- <- <-]; lia.
Qed.

(** An ASCII byte is a rune of its own, whatever comes before it. *)
Lemma runes_app_ascii (c : ascii) (b : string) :
  byteZ c < 0x80 ->
  forall a, runes (a +:+ String c b) = (runes a ++ byteZ c :: runes b)%list.
Proof.
  intros Hc a. remember (String.length a) as n eqn:Hn.
  revert a Hn. induction n as [n IH] using lt_wf_ind. intros a Hn.
  assert (forall t, (String.length t < n)%nat ->
                    runes (t +:+ String c b) = (runes t ++ byteZ c :: runes b)%list)
    as IH' by (intros t Ht; by apply (IH _ Ht)).
  clear IH. destruct a as [|c0 rest].
  { rewrite append_empty. by rewrite runes_1. }
  simpl in Hn. rewrite append_cons, !runes_unfold. cbv zeta.
  pose proof (IH' rest ltac:(lia)) as HT. revert HT.
  generalize (runes (rest +:+ String c b)) as T. generalize (runes rest) as R.
  intros R T ->.
  destruct (byteZ c0 <? RuneSelf); [reflexivity |].
  destruct (first (byteZ c0)) as [[[sz lo] hi]|] eqn:Hfirst; [| reflexivity].
  apply first_lo in Hfirst.
  destruct rest as [|c1 rest1].
  { rewrite append_empty. by zred. }
  rewrite append_cons. simpl in Hn.
  destruct ((byteZ c1 <? lo) || (hi <? byteZ c1)); [reflexivity |].
  destruct (sz <=? 2)%nat; [rewrite IH' by lia; reflexivity |].
  destruct rest1 as [|c2 rest2].
  { rewrite append_empty. unfold notContinuation. by zred. }
  rewrite append_cons. simpl in Hn.
  destruct (notContinuation (byteZ c2)); [reflexivity |].
  destruct (sz <=? 3)%nat; [rewrite IH' by lia; reflexivity |].
  destruct rest2 as [|c3 rest3].
  { rewrite append_empty. unfold notContinuation. by zred. }
  rewrite append_cons. simpl in Hn.
  destruct (notContinuation (byteZ c3)); [reflexivity |].
  rewrite IH' by lia. reflexivity.
Qed.

Ltac boolfacts :=
  repeat match goal with
    | H : _ && _ = true |- _ => apply andb_true_iff in H as [? ?]
    | H : _ && _ = false |- _ => apply andb_false_iff in H as [? | ?]
    | H : _ || _ = false |- _ => apply orb_false_iff in H as [? ?]
    | H : (_ <=? _) = true |- _ => apply Z.leb_le in H
    | H : (_ <=? _) = false |- _ => apply Z.leb_gt in H
    | H : (_ <? _) = true |- _ => apply Z.ltb_lt in H
    | H : (_ <? _) = false |- _ => apply Z.ltb_ge in H
    | H : (_ =? _) = true |- _ => apply Z.eqb_eq in H
    | H : (_ =? _) = false |- _ => apply Z.eqb_neq in H
    end.

(** What the table [first] says of a first byte. *)
Lemma first_spec (b0 : Z) (sz : nat) (lo hi : Z) :
  first b0 = Some (sz, lo, hi) ->
  0x80 <= lo /\ hi <= 0xBF
  /\ ((sz = 2%nat /\ 0xC2 <= b0 <= 0xDF)
      \/ (sz = 3%nat /\ 0xE0 <= b0 <= 0xEF /\ (b0 = 0xE0 -> 0xA0 <= lo))
      \/ (sz = 4%nat /\ 0xF0 <= b0 <= 0xF4 /\ (b0 = 0xF0 -> 0x90 <= lo))).
Proof.
  unfold first.
  repeat match goal with
         | |- context [if ?c then _ else _] => destruct c eqn:?
         end; intros [= <- <- <-]; boolfacts; lia.
Qed.

(** A rune below [RuneSelf] is a byte of the string. *)
Lemma runes_ascii_byte (c : ascii) :
  byteZ c < 0x80 ->
  forall s, hasByte c s = false -> Forall (fun r => r <> byteZ c) (runes s).
Proof.
  intros Hc s. remember (String.length s) as n eqn:Hn.
  revert s Hn. induction n as [n IH] using lt_wf_ind. intros s Hn Hs.
  assert (forall t, (String.length t < n)%nat -> hasByte c t = false ->
                    Forall (fun r => r <> byteZ c) (runes t)) as IH'.
  { intros t Ht. by apply (IH _ Ht). }
  clear IH. destruct s as [|c0 rest]; [constructor |].
  rewrite runes_unfold. cbv zeta. simpl in Hn.
  unfold hasByte in Hs. cbn [anyByte] in Hs.
  apply orb_false_iff in Hs as [Hc0 Hrest]. fold (hasByte c rest) in Hrest.
  assert (Forall (fun r => r <> byteZ c) (runes rest)) as Htail by (apply IH'; [lia | done]).
  assert (RuneError <> byteZ c) as He by (unfold RuneError; lia).
  destruct (byteZ c0 <? RuneSelf) eqn:Hb0.
  { constructor; [| done]. apply Ascii.eqb_neq in Hc0. intros E. apply Hc0.
    by rewrite <- (zbyte_byteZ c0), <- (zbyte_byteZ c), E. }
  destruct (first (byteZ c0)) as [[[sz lo] hi]|] eqn:Hfirst; [| by constructor].
  apply first_spec in Hfirst as (Hlo & Hhi & Hsz).
  destruct rest as [|c1 rest1]; [by constructor |]. simpl in Hn.
  unfold hasByte in Hrest. cbn [anyByte] in Hrest.
  apply orb_false_iff in Hrest as [Hc1 Hrest1]. fold (hasByte c rest1) in Hrest1.
  destruct ((byteZ c1 <? lo) || (hi <? byteZ c1)) eqn:Hb1; [by constructor |].
  boolfacts.
  destruct (sz <=? 2)%nat eqn:Hsz2.
  { constructor; [| apply IH'; [lia | done]].
    rewrite combine2. apply Nat.leb_le in Hsz2. Z.div_mod_to_equations. lia. }
  apply Nat.leb_gt in Hsz2.
  destruct rest1 as [|c2 rest2]; [by constructor |]. simpl in Hn.
  unfold hasByte in Hrest1. cbn [anyByte] in Hrest1.
  apply orb_false_iff in Hrest1 as [Hc2 Hrest2]. fold (hasByte c rest2) in Hrest2.
  destruct (notContinuation (byteZ c2)) eqn:Hb2; [by constructor |].
  destruct (sz <=? 3)%nat eqn:Hsz3.
  { constructor; [| apply IH'; [lia | done]].
    rewrite combine3. apply Nat.leb_le in Hsz3. Z.div_mod_to_equations. lia. }
  apply Nat.leb_gt in Hsz3.
  destruct rest2 as [|c3 rest3]; [by constructor |]. simpl in Hn.
  unfold hasByte in Hrest2. cbn [anyByte] in Hrest2.
  apply orb_false_iff in Hrest2 as [Hc3 Hrest3]. fold (hasByte c rest3) in Hrest3.
  destruct (notContinuation (byteZ c3)) eqn:Hb3; [by constructor |].
  constructor; [| apply IH'; [lia | done]].
  rewrite combine4. Z.div_mod_to_equations. lia.
Qed.

Lemma encodeAll_app (xs ys : list Z) :
  encodeAll (xs ++ ys) = encodeAll xs +:+ encodeAll ys.
Proof.
  induction xs as [|x xs IH]; [reflexivity |].
  cbn [app encodeAll foldr]. fold (encodeAll (xs ++ ys)). fold (encodeAll xs).
  by rewrite IH, append_assoc'.
Qed.

(** [strings.ToLower] works on the two sides of an ASCII byte apart. *)
Lemma ToLower_app_ascii (c : ascii) (a b : string) :
  byteZ c < 0x80 ->
  strings.ToLower (a +:+ String c b)
  = strings.ToLower a +:+ String (strings.lowerByte c) (strings.ToLower b).
Proof.
  intros Hc. rewrite !ToLower_runes, runes_app_ascii by exact Hc.
  rewrite map_app, encodeAll_app. cbn [map encodeAll foldr].
  fold (encodeAll (map unicode.ToLower (runes b))).
  by rewrite EncodeRune_lowerByte.
Qed.

Lemma isHigh_no_ascii (c : ascii) (s : string) :
  byteZ c < 0x80 -> isHigh s = true -> hasByte c s = false.
Proof.
  intros Hc. unfold hasByte. induction s as [|x s IH]; [reflexivity |].
  cbn [isHigh anyByte]. unfold RuneSelf.
  intros [Hx Hs]%andb_true_iff. apply Z.leb_le in Hx.
  rewrite (IH Hs), orb_false_r. apply byte_eqb_false. lia.
Qed.

Lemma ToLower_table_no_at :
  checkTable (fun r => negb (unicode.ToLower r =? 0x40)) unicode.CaseRanges = true.
Proof. vm_compute. reflexivity. Qed.

(** No rune but ["@"] itself is lowered to ["@"]. *)
Lemma unicode_ToLower_no_at (r : Z) : r <> 0x40 -> unicode.ToLower r <> 0x40.
Proof.
  intros Hne. destruct (decide (r <= 0x7F)) as [Hr | Hr].
  - unfold unicode.ToLower, unicode.MaxASCII. zred.
    destruct ((0x41 <=? r) && (r <=? 0x5A)) eqn:Hup; boolfacts; lia.
  - destruct (unicode.findRange r unicode.CaseRanges) eqn:Hf.
    + assert (unicode.findRange r unicode.CaseRanges <> None) as Hin by congruence.
      pose proof (checkTable_sound _ _ ToLower_table_no_at r Hin) as Hc.
      by apply negb_true_iff, Z.eqb_neq in Hc.
    + unfold unicode.ToLower, unicode.MaxASCII, unicode.To_LowerCase.
      zred. rewrite Hf. lia.
Qed.

(** Lowercasing brings no ["@"] into a string that has none. *)
Lemma ToLower_no_at (s : string) :
  hasByte "@" s = false -> hasByte "@" (strings.ToLower s) = false.
Proof.
  intros Hs. rewrite ToLower_runes.
  pose proof (runes_ascii_byte "@" ltac:(vm_compute; reflexivity) s Hs) as Hr.
  induction Hr as [|r rs Hr _ IH]; [reflexivity |].
  cbn [map encodeAll foldr]. fold (encodeAll (map unicode.ToLower rs)).
  rewrite hasByte_app, IH, orb_false_r.
  change (byteZ "@") with 0x40 in Hr. apply unicode_ToLower_no_at in Hr.
  set (y := unicode.ToLower r) in *.
  destruct (decide (0 <= y <= 0x7F)) as [Hy | Hy].
  - rewrite EncodeRune_ascii by exact Hy. unfold hasByte. cbn [anyByte].
    rewrite orb_false_r. apply byte_eqb_false. rewrite byteZ_zbyte by lia.
    change (byteZ "@") with 0x40. lia.
  - apply isHigh_no_ascii; [vm_compute; reflexivity | by apply EncodeRune_high].
Qed.

(** A string in which the byte occurs, cut at the first occurrence. *)
Lemma hasByte_cut (c : ascii) (s : string) :
  hasByte c s = true ->
  exists a b, s = a +:+ String c b /\ hasByte c a = false.
Proof.
  unfold hasByte. induction s as [|x s IH]; [discriminate |].
  cbn [anyByte]. destruct (Ascii.eqb x c) eqn:Hx.
  - intros _. apply Ascii.eqb_eq in Hx as ->. by exists EmptyString, s.
  - cbn [orb]. intros (a & b & -> & Ha)%IH. exists (String x a), b.
    split; [reflexivity |]. cbn [anyByte]. by rewrite Hx.
Qed.

Lemma length_append (a b : string) :
  String.length (a +:+ b) = (String.length a + String.length b)%nat.
Proof. induction a as [|x a IH]; [reflexivity |]. rewrite append_cons. simpl. by rewrite IH. Qed.

(** Splitting at ["@"] and lowercasing commute. *)
Lemma Split_ToLower (s : string) :
  strings.Split (strings.ToLower s) "@" = strings.ToLower <$> strings.Split s "@".
Proof.
  remember (String.length s) as n eqn:Hn.
  revert s Hn. induction n as [n IH] using lt_wf_ind. intros s Hn.
  destruct (hasByte "@" s) eqn:Hs.
  - apply hasByte_cut in Hs as (a & b & -> & Ha).
    rewrite ToLower_app_ascii by (vm_compute; reflexivity).
    change (strings.lowerByte "@") with "@"%char.
    rewrite (Split_app_sep _ _ _ (ToLower_no_at _ Ha)), (Split_app_sep _ _ _ Ha).
    rewrite fmap_cons. f_equal.
    apply (IH (String.length b)); [| reflexivity].
    rewrite Hn, length_append. simpl. lia.
  - by rewrite (Split_no_sep _ _ (ToLower_no_at _ Hs)), (Split_no_sep _ _ Hs).
Qed.

(** X3.  The domain does not depend on the case of the address: the
    lowercased address has the same domain, and a domain is its own
    lowercased form. *)
Theorem getDomain_case_insensitive (emailAddress : string) :
  getDomain (strings.ToLower emailAddress) = getDomain emailAddress
  /\ (forall domain, getDomain emailAddress = Some domain ->
        strings.ToLower domain = domain).
Proof.
  unfold getDomain. split.
  - rewrite Split_ToLower, list_lookup_fmap.
    destruct (strings.Split emailAddress "@" !! 1%nat); simpl; [| done].
    by rewrite ToLower_idempotent.
  - intros domain.
    destruct (strings.Split emailAddress "@" !! 1%nat); [| done].
    intros [= <-]. apply ToLower_idempotent.
Qed.

Lemma getDomain_case_insensitive_witness :
  getDomain (strings.ToLower "Bob@Acme.COM") = getDomain "Bob@Acme.COM"
  /\ strings.ToLower "acme.com" = "acme.com".
Proof.
  split.
  - exact (proj1 (getDomain_case_insensitive "Bob@Acme.COM")).
  - exact (proj2 (getDomain_case_insensitive "Bob@Acme.COM") "acme.com" eq_refl).
Defined.

(** ** Reading leaves the store alone *)

(** [ListProfiles], outcome by outcome of its two storage calls. *)
Lemma ListProfiles_eq (emailAddress : string) (w : World) :
  ListProfiles emailAddress w =
  match faultAt 0 w with
  | Some f => (Returns ([], Some (ErrFailure f)), set_faults (drop 1 (faults w)) w)
  | None =>
      match getDomain emailAddress with
      | None => (Panics, set_faults (drop 1 (faults w)) w)
      | Some domain =>
          let w' := set_faults (drop 2 (faults w)) w in
          match faultAt 1 w with
          | Some f => (Returns ([], Some (ErrFailure f)), w')
          | None =>
              (Returns
                 (filter (fun p => String.eqb (Profile.Domain p) domain = true)
                    (map_to_list (profiles w)).*2, None), w')
          end
      end
  end.
Proof.
  destruct w as [ps sk cf fs ck ks dr].
  unfold ListProfiles.
  destruct fs as [|[f|] [|[f'|] fs]]; run; try reflexivity;
    destruct (getDomain emailAddress); reflexivity.
Qed.

(** X5.  The reading operations write nothing: whatever the storage calls
    do, [GetProfile], [ListProfiles], [ListSkillTags] and
    [getConfiguration] leave the three collections as they found them. *)
Theorem reading_leaves_store_unchanged (emailAddress : string) (w : World) :
  stored (snd (GetProfile emailAddress w)) = stored w
  /\ stored (snd (ListProfiles emailAddress w)) = stored w
  /\ stored (snd (ListSkillTags w)) = stored w
  /\ stored (snd (getConfiguration w)) = stored w.
Proof.
  rewrite GetProfile_eq, ListProfiles_eq, ListSkillTags_eq, getConfiguration_eq.
  cbv zeta. repeat split.
  - destruct (faultAt 0 w); [done |]. destruct (faultAt 1 w); [done |].
    by destruct (profiles w !! emailAddress).
  - destruct (faultAt 0 w); [done |]. destruct (getDomain emailAddress); [| done].
    by destruct (faultAt 1 w).
  - destruct (faultAt 0 w); [done |]. by destruct (faultAt 1 w).
  - destruct (faultAt 0 w); [done |]. destruct (faultAt 1 w); [done |].
    by destruct (configuration w !! "configuration").
Qed.

(** ** What an update writes *)

(** X6.  [UpdateProfile] writes only when it returns a nil error, and then
    only the profile it returns, under that profile's address: with an
    error it returns a nil profile and the store is as before, as it is
    when the call panics; the skill tags and the configuration are never
    touched. *)
Theorem UpdateProfile_footprint (update : ProfileUpdate.t) (w : World) :
  let w' := snd (UpdateProfile update w) in
  skills w' = skills w /\ configuration w' = configuration w
  /\ match fst (UpdateProfile update w) with
     | Returns (Some p, None) =>
         profiles w' = <[Profile.EmailAddress p := p]> (profiles w)
     | Returns (None, Some _) => profiles w' = profiles w
     | Returns (Some _, Some _) | Returns (None, None) => False
     | Panics => profiles w' = profiles w
     end.
Proof.
  rewrite UpdateProfile_eq. cbv zeta.
  destruct (faultAt 0 w); [done |]. destruct (faultAt 1 w); [done |].
  destruct (getDomain _); [| done]. by destruct (faultAt 3 w).
Qed.

(** X7.  [UpdateProfile], called with the pointer it takes, panics exactly
    when the pointer is nil, or else when its two connections are made and
    no ["@"] occurs in the address of the update. *)
Theorem UpdateProfile_panics_iff (update : option ProfileUpdate.t) (w : World) :
  fst (UpdateProfile_pointer update w) = Panics
  <-> match update with
      | None => True
      | Some update =>
          faultAt 0 w = None /\ faultAt 1 w = None
          /\ hasByte "@" (ProfileUpdate.EmailAddress update) = false
      end.
Proof.
  destruct update as [update|]; [| done]. cbn [UpdateProfile_pointer].
  rewrite UpdateProfile_eq. cbv zeta.
  pose proof (Split_second_piece (ProfileUpdate.EmailAddress update) "@") as Hat.
  unfold getDomain in *.
  destruct (faultAt 0 w); [split; [done | intros [? _]; done] |].
  destruct (faultAt 1 w); [split; [done | intros (_ & ? & _); done] |].
  destruct (strings.Split _ "@" !! 1%nat).
  - destruct (faultAt 3 w); (split; [done | intros (_ & _ & H)]);
      apply Hat in H; done.
  - split; [intros _ | done]. repeat split. by apply Hat.
Qed.

(** ** The shape of the profiles collection *)

Lemma wellKeyed_insert (ps : gmap string Profile.t) (p : Profile.t) :
  wellKeyed ps ->
  getDomain (Profile.EmailAddress p) = Some (Profile.Domain p) ->
  wellKeyed (<[Profile.EmailAddress p := p]> ps).
Proof.
  intros Hps Hp k q. rewrite lookup_insert. case_decide as Hk.
  - intros [= <-]. by subst k.
  - apply Hps.
Qed.

Lemma wellKeyed_delete (ps : gmap string Profile.t) (k : string) :
  wellKeyed ps -> wellKeyed (delete k ps).
Proof.
  intros Hps k' q. rewrite lookup_delete. case_decide; [done | apply Hps].
Qed.

Lemma wellKeyed_bob : wellKeyed (profiles bobWorld).
Proof.
  intros k p Hk. unfold bobWorld in Hk. cbn [profiles] in Hk.
  apply lookup_singleton_Some in Hk as [<- <-]. split; reflexivity.
Qed.

(** The profile [UpdateProfile] goes on from: the stored one, or the fresh
    one when there is none or the read fails. *)
Lemma wellKeyed_read (ps : gmap string Profile.t) (a : string) (o : option Failure) :
  wellKeyed ps ->
  Profile.EmailAddress
    (match o with
     | Some _ => Profile.set_EmailAddress a NewProfile
     | None => default (Profile.set_EmailAddress a NewProfile) (ps !! a)
     end) = a.
Proof.
  intros Hps. destruct o; [reflexivity |].
  destruct (ps !! a) as [p|] eqn:Hp; [| reflexivity].
  apply Hps in Hp as [Hp _]. exact Hp.
Qed.

(** X8.  [UpdateProfile] and [DeleteProfile] keep the profiles collection
    well keyed, whatever the update, the address and the storage calls do:
    every stored profile stays under its own address, with the domain of
    that address. *)
Theorem wellKeyed_preserved
  (update : ProfileUpdate.t) (emailAddress : string) (w : World) :
  wellKeyed (profiles w) ->
  wellKeyed (profiles (snd (UpdateProfile update w)))
  /\ wellKeyed (profiles (snd (DeleteProfile emailAddress w))).
Proof.
  intros Hw. split.
  - rewrite UpdateProfile_eq. cbv zeta.
    destruct (faultAt 0 w); [done |]. destruct (faultAt 1 w); [done |].
    destruct (getDomain _) as [domain|] eqn:Hd; [| done].
    destruct (faultAt 3 w); [done |]. sim.
    pose proof (wellKeyed_read _ (ProfileUpdate.EmailAddress update) (faultAt 2 w) Hw)
      as Hkey.
    match goal with
    | |- wellKeyed (<[?k := ?p]> _) =>
        change k with (Profile.EmailAddress p); apply wellKeyed_insert; [exact Hw |]
    end.
    cbn [Profile.EmailAddress Profile.Domain]. by rewrite Hkey.
  - rewrite DeleteProfile_eq. cbv zeta.
    destruct (faultAt 0 w); [done |]. destruct (faultAt 1 w); [done |].
    destruct (profiles w !! emailAddress); [| done].
    sim. by apply wellKeyed_delete.
Qed.

Lemma wellKeyed_preserved_witness :
  wellKeyed (profiles (snd (UpdateProfile
                              (ProfileUpdate.mk "bob@x.com" [Skill.mk "rust" 4] "busy")
                              bobWorld)))
  /\ wellKeyed (profiles (snd (DeleteProfile "bob@x.com" bobWorld))).
Proof.
  exact (wellKeyed_preserved
           (ProfileUpdate.mk "bob@x.com" [Skill.mk "rust" 4] "busy")
           "bob@x.com" bobWorld wellKeyed_bob).
Defined.

(** X9.  What a successful update returns is what a read of the same
    address then finds: on a well-keyed collection, after [UpdateProfile]
    has returned a profile with a nil error, [GetProfile] for the address
    of the update, its two storage calls working, returns that profile
    with [found = true]. *)
Theorem UpdateProfile_then_GetProfile
  (update : ProfileUpdate.t) (w w' : World) (p' : Profile.t) :
  wellKeyed (profiles w) ->
  UpdateProfile update w = (Returns (Some p', None), w') ->
  faultAt 0 w' = None -> faultAt 1 w' = None ->
  fst (GetProfile (ProfileUpdate.EmailAddress update) w') = (Some p', true, None).
Proof.
  intros Hw. rewrite UpdateProfile_eq. cbv zeta.
  destruct (faultAt 0 w); [intros [=] |]. destruct (faultAt 1 w); [intros [=] |].
  destruct (getDomain _) as [domain|]; [| intros [=]].
  destruct (faultAt 3 w); [intros [=] |].
  pose proof (wellKeyed_read _ (ProfileUpdate.EmailAddress update) (faultAt 2 w) Hw)
    as Hkey.
  intros [= <- <-] H0 H1. rewrite GetProfile_eq.
  unfold faultAt in *. cbn [faults set_faults] in *. rewrite H0, H1.
  cbv zeta. sim. by rewrite Hkey, lookup_insert_eq.
Qed.

Lemma UpdateProfile_then_GetProfile_witness :
  fst (GetProfile "bob@x.com"
         (snd (UpdateProfile (ProfileUpdate.mk "bob@x.com" [Skill.mk "rust" 4] "busy")
                 bobWorld)))
  = (Some (Profile.mk "bob@x.com" "x.com" [Skill.mk "rust" 4]
             [SkillLevel.mk 100 [Skill.mk "go" 3]] "busy" 2 200),
     true, None).
Proof.
  exact (UpdateProfile_then_GetProfile
           (ProfileUpdate.mk "bob@x.com" [Skill.mk "rust" 4] "busy")
           bobWorld _ _ wellKeyed_bob eq_refl eq_refl eq_refl).
Defined.

(** X10.  Two updates in a row for an address that has no profile yet, no
    storage call failing, the clock free to move in between: the second
    returns version 2, the skills of the second update as the current
    skills, and as history the skills of the first update under the time
    of the first update, or no history when the first update had no
    skills. *)
Theorem UpdateProfile_twice_in_a_row
  (first second : ProfileUpdate.t) (domain : string) (w w2 : World) :
  ProfileUpdate.EmailAddress second = ProfileUpdate.EmailAddress first ->
  getDomain (ProfileUpdate.EmailAddress first) = Some domain ->
  profiles w !! ProfileUpdate.EmailAddress first = None ->
  faults w = [] ->
  profiles w2 = profiles (snd (UpdateProfile first w)) ->
  faults w2 = [] ->
  fst (UpdateProfile second w2)
  = Returns
      (Some (Profile.mk (ProfileUpdate.EmailAddress first) domain
               (ProfileUpdate.Skills second)
               (match ProfileUpdate.Skills first with
                | [] => []
                | _ :: _ => [SkillLevel.mk (clock w) (ProfileUpdate.Skills first)]
                end)
               (ProfileUpdate.Availability second) 2 (clock w2)),
       None).
Proof.
  intros Ha Hd Hnone Hf Hps Hf2.
  rewrite UpdateProfile_eq in Hps. rewrite UpdateProfile_eq.
  unfold faultAt in *. rewrite Hf in Hps. rewrite Hf2, Ha. cbv zeta in *.
  rewrite Hd in *. rewrite Hnone in Hps. cbn in Hps. rewrite Hps. cbn.
  rewrite lookup_insert_eq. cbn. unfold rolledHistory. cbn.
  by destruct (ProfileUpdate.Skills first).
Qed.

Lemma UpdateProfile_twice_in_a_row_witness :
  let first := ProfileUpdate.mk "bob@x.com" [Skill.mk "go" 3] "free" in
  let second := ProfileUpdate.mk "bob@x.com" [Skill.mk "rust" 4] "busy" in
  let w := emptyWorld 100 exampleKeys in
  fst (UpdateProfile second
         (mkWorld (profiles (snd (UpdateProfile first w))) ∅ ∅ [] 200 exampleKeys 0))
  = Returns
      (Some (Profile.mk "bob@x.com" "x.com" [Skill.mk "rust" 4]
               [SkillLevel.mk 100 [Skill.mk "go" 3]] "busy" 2 200),
       None).
Proof.
  exact (UpdateProfile_twice_in_a_row
           (ProfileUpdate.mk "bob@x.com" [Skill.mk "go" 3] "free")
           (ProfileUpdate.mk "bob@x.com" [Skill.mk "rust" 4] "busy")
           "x.com" (emptyWorld 100 exampleKeys)
           (mkWorld (profiles (snd (UpdateProfile
                                      (ProfileUpdate.mk "bob@x.com" [Skill.mk "go" 3] "free")
                                      (emptyWorld 100 exampleKeys))))
              ∅ ∅ [] 200 exampleKeys 0)
           eq_refl eq_refl eq_refl eq_refl eq_refl eq_refl).
Defined.

(** ** Deleting profiles *)

(** X11.  [DeleteProfile] returns [true] only with a nil error and only
    for an address that was stored, and the store is then the old one
    without that address; whenever it returns [false] it returns an error
    and has changed nothing.  The skill tags and the configuration are
    never touched. *)
Theorem DeleteProfile_footprint (emailAddress : string) (w : World) :
  let w' := snd (DeleteProfile emailAddress w) in
  skills w' = skills w /\ configuration w' = configuration w
  /\ match fst (DeleteProfile emailAddress w) with
     | (true, None) =>
         is_Some (profiles w !! emailAddress)
         /\ profiles w' = delete emailAddress (profiles w)
     | (false, Some _) => profiles w' = profiles w
     | (true, Some _) | (false, None) => False
     end.
Proof.
  rewrite DeleteProfile_eq. cbv zeta.
  destruct (faultAt 0 w); [done |]. destruct (faultAt 1 w); [done |].
  destruct (profiles w !! emailAddress) eqn:Hp; [| done].
  sim. repeat split. by eexists.
Qed.

(** X12.  Once [DeleteProfile] has returned [true], a read of the address,
    its two storage calls working, reports [found = false] with a nil
    error, and every other address reads as before. *)
Theorem DeleteProfile_then_GetProfile (emailAddress other : string) (w w' : World) :
  DeleteProfile emailAddress w = ((true, None), w') ->
  faultAt 0 w' = None -> faultAt 1 w' = None ->
  fst (GetProfile emailAddress w')
  = (Some (Profile.set_EmailAddress emailAddress NewProfile), false, None)
  /\ (other <> emailAddress ->
      fst (GetProfile other w') = fst (GetProfile other (set_faults [] w))).
Proof.
  rewrite DeleteProfile_eq. cbv zeta.
  destruct (faultAt 0 w); [intros [=] |]. destruct (faultAt 1 w); [intros [=] |].
  destruct (profiles w !! emailAddress); [| intros [=]]. intros [= <-] H0 H1.
  rewrite !GetProfile_eq. unfold faultAt in *. cbn [faults set_faults] in *.
  rewrite H0, H1. cbv zeta. sim. rewrite lookup_delete_eq. split; [done |].
  intros Hne. rewrite lookup_delete_ne by (intros E; by apply Hne).
  by destruct (profiles w !! other).
Qed.

Lemma DeleteProfile_then_GetProfile_witness :
  fst (GetProfile "bob@x.com" (snd (DeleteProfile "bob@x.com" bobWorld)))
  = (Some (Profile.set_EmailAddress "bob@x.com" NewProfile), false, None)
  /\ ("carol@x.com" <> "bob@x.com" ->
      fst (GetProfile "carol@x.com" (snd (DeleteProfile "bob@x.com" bobWorld)))
      = fst (GetProfile "carol@x.com" (set_faults [] bobWorld))).
Proof.
  exact (DeleteProfile_then_GetProfile "bob@x.com" "carol@x.com" bobWorld _
           eq_refl eq_refl eq_refl).
Defined.

(** ** Listing profiles *)

(** The documents the domain query selects. *)
Lemma elem_of_domain_query (ps : gmap string Profile.t) (domain : string) (p : Profile.t) :
  p ∈ filter (fun p => String.eqb (Profile.Domain p) domain = true) (map_to_list ps).*2
  <-> (exists k, ps !! k = Some p) /\ Profile.Domain p = domain.
Proof.
  rewrite list_elem_of_filter, String.eqb_eq, list_elem_of_fmap.
  split.
  - intros [Hd [[k q] [-> Hin]]]. apply elem_of_map_to_list in Hin. eauto.
  - intros [[k Hk] Hd]. split; [exact Hd |].
    exists (k, p). split; [reflexivity | by apply elem_of_map_to_list].
Qed.

(** X13.  [ListProfiles], its two storage calls working and the address
    having a domain, returns with a nil error the stored profiles whose
    [Domain] is that domain, those and no others. *)
Theorem ListProfiles_selects_domain (emailAddress domain : string) (w : World) :
  faultAt 0 w = None -> faultAt 1 w = None ->
  getDomain emailAddress = Some domain ->
  exists results,
    fst (ListProfiles emailAddress w) = Returns (results, None)
    /\ forall p, p ∈ results
                 <-> (exists k, profiles w !! k = Some p) /\ Profile.Domain p = domain.
Proof.
  intros H0 H1 Hd. rewrite ListProfiles_eq, H0, H1, Hd. cbv zeta.
  eexists. split; [reflexivity |]. intros p. apply elem_of_domain_query.
Qed.

Lemma ListProfiles_selects_domain_witness :
  exists results,
    fst (ListProfiles "Carol@X.COM" bobWorld) = Returns (results, None)
    /\ forall p, p ∈ results
                 <-> (exists k, profiles bobWorld !! k = Some p)
                     /\ Profile.Domain p = "x.com".
Proof.
  exact (ListProfiles_selects_domain "Carol@X.COM" "x.com" bobWorld
           eq_refl eq_refl eq_refl).
Defined.

(** X14.  A profile just updated is listed for every caller of its domain
    and for no caller of another domain: after [UpdateProfile] has returned
    a profile with a nil error,
    [ListProfiles], its two storage calls working, returns that profile
    exactly when the caller's address has the domain of the address of
    the update. *)
Theorem UpdateProfile_then_ListProfiles
  (update : ProfileUpdate.t) (caller domain : string) (w w' : World) (p' : Profile.t) :
  UpdateProfile update w = (Returns (Some p', None), w') ->
  faultAt 0 w' = None -> faultAt 1 w' = None ->
  getDomain caller = Some domain ->
  exists results,
    fst (ListProfiles caller w') = Returns (results, None)
    /\ (p' ∈ results
        <-> getDomain (ProfileUpdate.EmailAddress update) = Some domain).
Proof.
  intros Hup H0 H1 Hd. rewrite ListProfiles_eq, H0, H1, Hd. cbv zeta.
  eexists. split; [reflexivity |]. rewrite elem_of_domain_query.
  revert Hup. rewrite UpdateProfile_eq. cbv zeta.
  destruct (faultAt 0 w); [intros [=] |]. destruct (faultAt 1 w); [intros [=] |].
  destruct (getDomain (ProfileUpdate.EmailAddress update)) as [d|]; [| intros [=]].
  destruct (faultAt 3 w); [intros [=] |].
  intros [= <- <-]. sim. cbn [Profile.Domain]. split.
  - intros [_ ->]. reflexivity.
  - intros [= ->]. split; [| reflexivity]. eexists. apply lookup_insert_eq.
Qed.

Lemma UpdateProfile_then_ListProfiles_witness :
  exists results,
    fst (ListProfiles "carol@X.com"
           (snd (UpdateProfile (ProfileUpdate.mk "bob@x.com" [Skill.mk "rust" 4] "busy")
                   bobWorld)))
    = Returns (results, None)
    /\ (Profile.mk "bob@x.com" "x.com" [Skill.mk "rust" 4]
          [SkillLevel.mk 100 [Skill.mk "go" 3]] "busy" 2 200 ∈ results
        <-> getDomain "bob@x.com" = Some "x.com").
Proof.
  exact (UpdateProfile_then_ListProfiles
           (ProfileUpdate.mk "bob@x.com" [Skill.mk "rust" 4] "busy")
           "carol@X.com" "x.com" bobWorld _ _
           eq_refl eq_refl eq_refl eq_refl).
Defined.

(** ** Deleting skill tags *)

(** What is stored under [tag] once [tags] have been removed. *)
Lemma deleteTags_lookup (tags : list string) (m : gmap string SkillTag) (tag : string) :
  deleteTags tags m !! tag = if decide (tag ∈ tags) then None else m !! tag.
Proof.
  revert m. induction tags as [|t tags IH]; intros m.
  - unfold deleteTags. simpl foldl.
    destruct (decide (tag ∈ [])) as [H|H]; [by apply elem_of_nil in H | reflexivity].
  - change (deleteTags (t :: tags) m) with (deleteTags tags (delete t m)).
    rewrite IH.
    destruct (decide (tag ∈ tags)) as [Hin | Hnin].
    + rewrite decide_True; [reflexivity | apply elem_of_cons; by right].
    + destruct (decide (t = tag)) as [Heq | Hne].
      * rewrite Heq, lookup_delete_eq.
        rewrite decide_True; [reflexivity | apply elem_of_cons; by left].
      * rewrite lookup_delete_ne by exact Hne.
        rewrite decide_False; [reflexivity |].
        intros [E | E]%elem_of_cons; [by subst | done].
Qed.

(** One removal that does not fail, found or not: the tag is gone, and the
    loop goes on. *)
Lemma DeleteSkillTags_loop_step (t : string) (tags : list string)
  (ps : gmap string Profile.t) (sk : gmap string SkillTag)
  (cf : gmap string Configuration) (fs : list (option Failure))
  (ck : Z) (ks : nat -> string) (dr : nat) :
  DeleteSkillTags_loop (t :: tags) (mkWorld ps sk cf (None :: fs) ck ks dr)
  = DeleteSkillTags_loop tags (mkWorld ps (delete t sk) cf fs ck ks dr)
  /\ DeleteSkillTags_loop (t :: tags) (mkWorld ps sk cf [] ck ks dr)
     = DeleteSkillTags_loop tags (mkWorld ps (delete t sk) cf [] ck ks dr).
Proof.
  simpl DeleteSkillTags_loop. split; run.
  - destruct (sk !! t) eqn:Ht; [reflexivity |].
    rewrite decide_True by reflexivity. by rewrite (delete_id _ _ Ht).
  - destruct (sk !! t) eqn:Ht; [reflexivity |].
    rewrite decide_True by reflexivity. by rewrite (delete_id _ _ Ht).
Qed.

(** The loop when its [k]-th removal, counted from 0, is the first to
    fail. *)
Lemma DeleteSkillTags_loop_failure (tags : list string) :
  forall (k : nat) (w : World) (f : Failure) (rest : list (option Failure)),
    faults w = (replicate k None ++ Some f :: rest)%list ->
    (k < length tags)%nat ->
    DeleteSkillTags_loop tags w
    = (Some (ErrFailure f),
       set_faults rest (set_skills (deleteTags (take k tags) (skills w)) w)).
Proof.
  induction tags as [|t tags IH]; intros k w f rest Hf Hk; [simpl in Hk; lia |].
  destruct w as [ps sk cf fs ck ks dr]. simpl in Hf. subst fs.
  destruct k as [|k].
  - simpl DeleteSkillTags_loop. run. by rewrite decide_False.
  - simpl replicate. simpl app.
    rewrite (proj1 (DeleteSkillTags_loop_step t tags ps sk cf _ ck ks dr)).
    rewrite (IH k _ f rest); [reflexivity | reflexivity | simpl in Hk; lia].
Qed.

(** The loop when none of its removals fails. *)
Lemma DeleteSkillTags_loop_success (tags : list string) :
  forall w : World,
    Forall (eq None) (take (length tags) (faults w)) ->
    DeleteSkillTags_loop tags w
    = (None,
       set_faults (drop (length tags) (faults w))
         (set_skills (deleteTags tags (skills w)) w)).
Proof.
  induction tags as [|t tags IH]; intros w Hf;
    destruct w as [ps sk cf fs ck ks dr]; simpl in Hf.
  - reflexivity.
  - destruct fs as [|o fs].
    + rewrite (proj2 (DeleteSkillTags_loop_step t tags ps sk cf [] ck ks dr)).
      rewrite IH; [| sim; rewrite take_nil; constructor].
      sim. by rewrite drop_nil.
    + simpl in Hf. inversion Hf as [|? ? <- Hf']; subst.
      rewrite (proj1 (DeleteSkillTags_loop_step t tags ps sk cf fs ck ks dr)).
      rewrite IH; [reflexivity | exact Hf'].
Qed.

(** X15.  [DeleteSkillTags] removes its tags in order and takes a tag that
    is not stored for removed.  When no storage call fails, the error is
    nil, none of the tags is stored any more and every other tag is as
    before.  When the removal at position [k] is the first to fail, that
    error is returned at once: the tags before position [k] are gone and
    nothing else has changed. *)
Theorem DeleteSkillTags_in_order_until_first_failure (tags : list string) (w : World) :
  (Forall (eq None) (take (S (length tags)) (faults w)) ->
   fst (DeleteSkillTags tags w) = None
   /\ (forall tag, tag ∈ tags -> skills (snd (DeleteSkillTags tags w)) !! tag = None)
   /\ (forall tag, tag ∉ tags ->
         skills (snd (DeleteSkillTags tags w)) !! tag = skills w !! tag))
  /\ (forall (k : nat) (f : Failure) (rest : list (option Failure)),
        faults w = (None :: replicate k None ++ Some f :: rest)%list ->
        (k < length tags)%nat ->
        fst (DeleteSkillTags tags w) = Some (ErrFailure f)
        /\ (forall tag, tag ∈ take k tags ->
              skills (snd (DeleteSkillTags tags w)) !! tag = None)
        /\ (forall tag, tag ∉ take k tags ->
              skills (snd (DeleteSkillTags tags w)) !! tag = skills w !! tag)).
Proof.
  split.
  - intros Hf.
    assert (DeleteSkillTags tags w
            = (None,
               set_faults (drop (S (length tags)) (faults w))
                 (set_skills (deleteTags tags (skills w)) w))) as ->.
    { destruct w as [ps sk cf fs ck ks dr]. unfold DeleteSkillTags.
      destruct fs as [|o fs]; run.
      - rewrite DeleteSkillTags_loop_success; [| sim; rewrite take_nil; constructor].
        sim. by rewrite drop_nil.
      - simpl in Hf. inversion Hf as [|? ? <- Hf']; subst. sim.
        rewrite DeleteSkillTags_loop_success; [reflexivity | exact Hf']. }
    sim. repeat split; intros tag Htag; rewrite deleteTags_lookup.
    + by rewrite decide_True.
    + by rewrite decide_False.
  - intros k f rest Hf Hk.
    assert (DeleteSkillTags tags w
            = (Some (ErrFailure f),
               set_faults rest
                 (set_skills (deleteTags (take k tags) (skills w)) w))) as ->.
    { destruct w as [ps sk cf fs ck ks dr]. simpl in Hf. subst fs.
      unfold DeleteSkillTags. run.
      rewrite (DeleteSkillTags_loop_failure tags k _ f rest);
        [reflexivity | reflexivity | exact Hk]. }
    sim. repeat split; intros tag Htag; rewrite deleteTags_lookup.
    + by rewrite decide_True.
    + by rewrite decide_False.
Qed.

Lemma DeleteSkillTags_in_order_until_first_failure_witness :
  let tags := ["Go Lang"; "Rust"; "C"] in
  let w0 := set_skills {[ "Rust" := mkSkillTag "rust" ]} (emptyWorld 100 exampleKeys) in
  let w := set_faults [None; None; Some QueryFailed] w0 in
  (fst (DeleteSkillTags tags w0) = None
   /\ (forall tag, tag ∈ tags -> skills (snd (DeleteSkillTags tags w0)) !! tag = None)
   /\ (forall tag, tag ∉ tags ->
         skills (snd (DeleteSkillTags tags w0)) !! tag = skills w0 !! tag))
  /\ (fst (DeleteSkillTags tags w) = Some (ErrFailure QueryFailed)
      /\ (forall tag, tag ∈ take 1 tags ->
            skills (snd (DeleteSkillTags tags w)) !! tag = None)
      /\ (forall tag, tag ∉ take 1 tags ->
            skills (snd (DeleteSkillTags tags w)) !! tag = skills w !! tag)).
Proof.
  split.
  - apply (proj1 (DeleteSkillTags_in_order_until_first_failure
                    ["Go Lang"; "Rust"; "C"]
                    (set_skills {[ "Rust" := mkSkillTag "rust" ]}
                       (emptyWorld 100 exampleKeys)))).
    simpl. constructor.
  - apply (proj2 (DeleteSkillTags_in_order_until_first_failure
                    ["Go Lang"; "Rust"; "C"]
                    (set_faults [None; None; Some QueryFailed]
                       (set_skills {[ "Rust" := mkSkillTag "rust" ]}
                          (emptyWorld 100 exampleKeys))))
             1%nat QueryFailed []).
    + reflexivity.
    + simpl. lia.
Defined.

(** ** Adding, listing and deleting skill tags together *)

Lemma AddSkillTags_no_faults (tags : list string) (w : World) :
  faults w = [] ->
  AddSkillTags tags w = (None, set_skills (upsertTags tags (skills w)) w).
Proof.
  intros Hf. destruct w as [ps sk cf fs ck ks dr]. simpl in Hf. subst fs.
  unfold AddSkillTags. run.
  rewrite AddSkillTags_loop_success; [| sim; rewrite take_nil; constructor].
  sim. by rewrite drop_nil.
Qed.

Lemma DeleteSkillTags_no_faults (tags : list string) (w : World) :
  faults w = [] ->
  DeleteSkillTags tags w = (None, set_skills (deleteTags tags (skills w)) w).
Proof.
  intros Hf. destruct w as [ps sk cf fs ck ks dr]. simpl in Hf. subst fs.
  unfold DeleteSkillTags. run.
  rewrite DeleteSkillTags_loop_success; [| sim; rewrite take_nil; constructor].
  sim. by rewrite drop_nil.
Qed.

Lemma faults_set_skills (m : gmap string SkillTag) (w : World) :
  faults (set_skills m w) = faults w.
Proof. reflexivity. Qed.

(** X16.  Adding tags and then deleting the same tags, no storage call
    failing, leaves none of them stored and every other tag as it was; when
    none of them was stored before, the collection is back to what it
    was. *)
Theorem AddSkillTags_then_DeleteSkillTags (tags : list string) (w : World) :
  faults w = [] ->
  let w1 := snd (AddSkillTags tags w) in
  let w2 := snd (DeleteSkillTags tags w1) in
  fst (AddSkillTags tags w) = None
  /\ fst (DeleteSkillTags tags w1) = None
  /\ skills w2 = deleteTags tags (skills w)
  /\ ((forall tag, tag ∈ tags -> skills w !! tag = None) -> skills w2 = skills w).
Proof.
  intros Hf. cbv zeta. rewrite (AddSkillTags_no_faults _ _ Hf). cbn [fst snd].
  rewrite DeleteSkillTags_no_faults by (rewrite faults_set_skills; exact Hf).
  cbn [fst snd skills set_skills].
  assert (deleteTags tags (upsertTags tags (skills w)) = deleteTags tags (skills w))
    as ->.
  { apply map_eq. intros tag. rewrite !deleteTags_lookup, upsertTags_lookup.
    by destruct (decide (tag ∈ tags)). }
  repeat split. intros Hnone. apply map_eq. intros tag.
  rewrite deleteTags_lookup. destruct (decide (tag ∈ tags)) as [Hin|]; [| done].
  by rewrite Hnone.
Qed.

Lemma AddSkillTags_then_DeleteSkillTags_witness :
  let tags := ["Go Lang"; "Rust"] in
  let w := set_skills {[ "C" := mkSkillTag "c" ]} (emptyWorld 100 exampleKeys) in
  let w1 := snd (AddSkillTags tags w) in
  let w2 := snd (DeleteSkillTags tags w1) in
  fst (AddSkillTags tags w) = None
  /\ fst (DeleteSkillTags tags w1) = None
  /\ skills w2 = deleteTags tags (skills w)
  /\ ((forall tag, tag ∈ tags -> skills w !! tag = None) -> skills w2 = skills w).
Proof.
  exact (AddSkillTags_then_DeleteSkillTags ["Go Lang"; "Rust"]
           (set_skills {[ "C" := mkSkillTag "c" ]} (emptyWorld 100 exampleKeys))
           eq_refl).
Defined.

(** X17.  Adding the same tags a second time, no storage call failing,
    changes nothing: the collection is what it was after the first time. *)
Theorem AddSkillTags_twice (tags : list string) (w : World) :
  faults w = [] ->
  let w1 := snd (AddSkillTags tags w) in
  fst (AddSkillTags tags w1) = None
  /\ skills (snd (AddSkillTags tags w1)) = skills w1.
Proof.
  intros Hf. cbv zeta. rewrite (AddSkillTags_no_faults _ _ Hf). cbn [fst snd].
  rewrite AddSkillTags_no_faults by (rewrite faults_set_skills; exact Hf).
  cbn [fst snd skills set_skills]. split; [reflexivity |].
  apply map_eq. intros tag. rewrite !upsertTags_lookup.
  by destruct (decide (tag ∈ tags)).
Qed.

Lemma AddSkillTags_twice_witness :
  let tags := ["Go Lang"; "Rust"; "Go Lang"] in
  let w1 := snd (AddSkillTags tags (emptyWorld 100 exampleKeys)) in
  fst (AddSkillTags tags w1) = None
  /\ skills (snd (AddSkillTags tags w1)) = skills w1.
Proof.
  exact (AddSkillTags_twice ["Go Lang"; "Rust"; "Go Lang"]
           (emptyWorld 100 exampleKeys) eq_refl).
Defined.

(** The names [ListSkillTags] returns when its calls work. *)
Lemma elem_of_tag_names (m : gmap string SkillTag) (name : string) :
  name ∈ map Name (map_to_list m).*2
  <-> exists key, m !! key = Some (mkSkillTag name).
Proof.
  change (map Name (map_to_list m).*2) with (Name <$> (map_to_list m).*2).
  rewrite list_elem_of_fmap. split.
  - intros [d [Hname Hd]]. apply list_elem_of_fmap in Hd as [[key d'] [Hd' Hin]].
    apply elem_of_map_to_list in Hin. exists key. rewrite Hin. simpl in Hd'.
    subst d' name. by destruct d.
  - intros [key Hkey]. exists (mkSkillTag name). split; [reflexivity |].
    apply list_elem_of_fmap. exists (key, mkSkillTag name).
    split; [reflexivity | by apply elem_of_map_to_list].
Qed.

(** X18.  [ListSkillTags], its two storage calls working, returns with a
    nil error one name per stored tag document: as many names as there are
    documents, and a name is returned exactly when a document holds it. *)
Theorem ListSkillTags_one_name_per_document (w : World) :
  faultAt 0 w = None -> faultAt 1 w = None ->
  exists names,
    fst (ListSkillTags w) = (names, None)
    /\ length names = size (skills w)
    /\ forall name, name ∈ names
                    <-> exists key, skills w !! key = Some (mkSkillTag name).
Proof.
  intros H0 H1. rewrite ListSkillTags_eq, H0, H1. cbv zeta.
  eexists. split; [reflexivity |]. split.
  - by rewrite length_map, length_fmap, length_map_to_list.
  - apply elem_of_tag_names.
Qed.

Lemma ListSkillTags_one_name_per_document_witness :
  let w := set_skills {[ "Go Lang" := mkSkillTag "go-lang" ]}
             (emptyWorld 100 exampleKeys) in
  exists names,
    fst (ListSkillTags w) = (names, None)
    /\ length names = size (skills w)
    /\ forall name, name ∈ names
                    <-> exists key, skills w !! key = Some (mkSkillTag name).
Proof.
  exact (ListSkillTags_one_name_per_document
           (set_skills {[ "Go Lang" := mkSkillTag "go-lang" ]}
              (emptyWorld 100 exampleKeys))
           eq_refl eq_refl).
Defined.

Lemma ListSkillTags_no_faults (w : World) :
  faults w = [] ->
  fst (ListSkillTags w) = (map Name (map_to_list (skills w)).*2, None).
Proof.
  intros Hf. rewrite ListSkillTags_eq. unfold faultAt. by rewrite Hf.
Qed.

(** X19.  After [AddSkillTags], no storage call failing, [ListSkillTags]
    returns the cleaned form of every tag added; and when the collection
    was empty before, it returns nothing but the cleaned forms of the tags
    added. *)
Theorem AddSkillTags_then_ListSkillTags (tags : list string) (w : World) :
  faults w = [] ->
  exists names,
    fst (ListSkillTags (snd (AddSkillTags tags w))) = (names, None)
    /\ (forall tag, tag ∈ tags -> CleanTag tag ∈ names)
    /\ (skills w = ∅ ->
        forall name, name ∈ names <-> exists tag, tag ∈ tags /\ name = CleanTag tag).
Proof.
  intros Hf. rewrite (AddSkillTags_no_faults _ _ Hf). cbn [snd].
  rewrite ListSkillTags_no_faults by (rewrite faults_set_skills; exact Hf).
  cbn [skills set_skills]. eexists. split; [reflexivity |]. split.
  - intros tag Hin. apply elem_of_tag_names. exists tag.
    rewrite upsertTags_lookup. by rewrite decide_True.
  - intros Hempty name. rewrite elem_of_tag_names, Hempty. split.
    + intros [key Hkey]. rewrite upsertTags_lookup in Hkey.
      destruct (decide (key ∈ tags)) as [Hin|]; [| by rewrite lookup_empty in Hkey].
      injection Hkey as <-. eauto.
    + intros (tag & Hin & ->). exists tag.
      rewrite upsertTags_lookup. by rewrite decide_True.
Qed.

Lemma AddSkillTags_then_ListSkillTags_witness :
  exists names,
    fst (ListSkillTags (snd (AddSkillTags ["Go Lang"; "Rust"]
                               (emptyWorld 100 exampleKeys))))
    = (names, None)
    /\ (forall tag, tag ∈ ["Go Lang"; "Rust"] -> CleanTag tag ∈ names)
    /\ (skills (emptyWorld 100 exampleKeys) = ∅ ->
        forall name, name ∈ names
                     <-> exists tag, tag ∈ ["Go Lang"; "Rust"] /\ name = CleanTag tag).
Proof.
  exact (AddSkillTags_then_ListSkillTags ["Go Lang"; "Rust"]
           (emptyWorld 100 exampleKeys) eq_refl).
Defined.

(** X20.  A tag is stored under the text it was given as, and listed under
    its cleaned form.  For a tag that cleaning changes, deleting the listed
    name after adding the tag, no storage call failing, returns a nil error
    and removes nothing of it: the document of the tag is still stored, and
    its name still listed. *)
Theorem DeleteSkillTags_by_listed_name_keeps_tag (tag : string) (w : World) :
  CleanTag tag <> tag ->
  faults w = [] ->
  let w1 := snd (AddSkillTags [tag] w) in
  let w2 := snd (DeleteSkillTags [CleanTag tag] w1) in
  fst (DeleteSkillTags [CleanTag tag] w1) = None
  /\ skills w2 !! tag = Some (mkSkillTag (CleanTag tag))
  /\ CleanTag tag ∈ fst (fst (ListSkillTags w2)).
Proof.
  intros Hne Hf. cbv zeta. rewrite (AddSkillTags_no_faults _ _ Hf). cbn [snd].
  rewrite DeleteSkillTags_no_faults by (rewrite faults_set_skills; exact Hf).
  cbn [fst snd]. rewrite ListSkillTags_no_faults by exact Hf.
  cbn [fst skills set_skills].
  assert (deleteTags [CleanTag tag] (upsertTags [tag] (skills w)) !! tag
          = Some (mkSkillTag (CleanTag tag))) as Hstored.
  { rewrite deleteTags_lookup, decide_False.
    - rewrite upsertTags_lookup, decide_True; [reflexivity | apply list_elem_of_singleton; reflexivity].
    - intros E%list_elem_of_singleton. by apply Hne. }
  split; [reflexivity |]. split; [exact Hstored |].
  apply elem_of_tag_names. eauto.
Qed.

Lemma DeleteSkillTags_by_listed_name_keeps_tag_witness :
  let w1 := snd (AddSkillTags ["Go Lang"] (emptyWorld 100 exampleKeys)) in
  let w2 := snd (DeleteSkillTags [CleanTag "Go Lang"] w1) in
  fst (DeleteSkillTags [CleanTag "Go Lang"] w1) = None
  /\ skills w2 !! "Go Lang" = Some (mkSkillTag (CleanTag "Go Lang"))
  /\ CleanTag "Go Lang" ∈ fst (fst (ListSkillTags w2)).
Proof.
  apply (DeleteSkillTags_by_listed_name_keeps_tag "Go Lang"
           (emptyWorld 100 exampleKeys)).
  - vm_compute. discriminate.
  - reflexivity.
Defined.

(** ** The configuration, once more *)

(** X21.  With a configuration document stored, [GetOrCreateConfiguration]
    creates nothing, whatever its storage calls do: the three collections
    are as before, no key is generated, and the call returns the stored
    document with a nil error or else the error of a failed storage
    call. *)
Theorem GetOrCreateConfiguration_existing_untouched (w : World) (c : Configuration) :
  configuration w !! "configuration" = Some c ->
  stored (snd (GetOrCreateConfiguration w)) = stored w
  /\ drawn (snd (GetOrCreateConfiguration w)) = drawn w
  /\ (fst (GetOrCreateConfiguration w) = (c, None)
      \/ exists c' f, fst (GetOrCreateConfiguration w) = (c', Some (ErrFailure f))).
Proof.
  intros Hc. rewrite GetOrCreateConfiguration_eq, getConfiguration_eq, Hc. cbv zeta.
  destruct (faultAt 0 w); [rewrite decide_False by discriminate; eauto 6 |].
  destruct (faultAt 1 w); rewrite decide_False by discriminate; eauto 6.
Qed.

Lemma GetOrCreateConfiguration_existing_untouched_witness :
  let w := set_configuration {[ "configuration" := NewConfiguration "old-key" ]}
             (emptyWorld 100 exampleKeys) in
  stored (snd (GetOrCreateConfiguration w)) = stored w
  /\ drawn (snd (GetOrCreateConfiguration w)) = drawn w
  /\ (fst (GetOrCreateConfiguration w) = (NewConfiguration "old-key", None)
      \/ exists c' f, fst (GetOrCreateConfiguration w) = (c', Some (ErrFailure f))).
Proof.
  exact (GetOrCreateConfiguration_existing_untouched
           (set_configuration {[ "configuration" := NewConfiguration "old-key" ]}
              (emptyWorld 100 exampleKeys))
           (NewConfiguration "old-key") eq_refl).
Defined.

(** X22.  With no configuration document stored, when the creation fails,
    be it at its connection or at its insert, and the reads work,
    [GetOrCreateConfiguration] returns the error [ErrNotFound] of its
    second read, not the error of the creation, together with a
    configuration without a key; nothing is stored. *)
Theorem GetOrCreateConfiguration_creation_failure (w : World) (f : Failure) :
  configuration w !! "configuration" = None ->
  faults w = [None; None; Some f] \/ faults w = [None; None; None; Some f] ->
  fst (GetOrCreateConfiguration w) = (NewConfiguration "", Some ErrNotFound)
  /\ stored (snd (GetOrCreateConfiguration w)) = stored w.
Proof.
  intros Hc Hf. destruct w as [ps sk cf fs ck ks dr]. simpl in Hc, Hf.
  rewrite GetOrCreateConfiguration_eq, getConfiguration_eq.
  destruct Hf as [-> | ->]; run; rewrite Hc; rewrite decide_True by reflexivity;
    unfold attemptToCreateConfiguration; run; rewrite ?Hc; sim;
    rewrite getConfiguration_eq; run; rewrite Hc; done.
Qed.

Lemma GetOrCreateConfiguration_creation_failure_witness :
  let w := set_faults [None; None; None; Some SocketTimeout]
             (emptyWorld 100 exampleKeys) in
  fst (GetOrCreateConfiguration w) = (NewConfiguration "", Some ErrNotFound)
  /\ stored (snd (GetOrCreateConfiguration w)) = stored w.
Proof.
  apply (GetOrCreateConfiguration_creation_failure
           (set_faults [None; None; None; Some SocketTimeout]
              (emptyWorld 100 exampleKeys))
           SocketTimeout).
  - reflexivity.
  - right. reflexivity.
Defined.

(** X23.  [DeleteConfiguration] on a stored configuration, no storage call
    failing, returns a nil error and empties the whole configuration
    collection, leaving profiles and skill tags alone; the
    [GetOrCreateConfiguration] that follows creates, stores and returns a
    configuration with the next key of the key generator. *)
Theorem DeleteConfiguration_then_GetOrCreateConfiguration (w : World) (c : Configuration) :
  configuration w !! "configuration" = Some c ->
  faults w = [] ->
  let w1 := snd (DeleteConfiguration w) in
  let created := NewConfiguration (keys w (drawn w)) in
  fst (DeleteConfiguration w) = None
  /\ configuration w1 = ∅
  /\ profiles w1 = profiles w /\ skills w1 = skills w
  /\ fst (GetOrCreateConfiguration w1) = (created, None)
  /\ configuration (snd (GetOrCreateConfiguration w1)) !! "configuration"
     = Some created.
Proof.
  intros Hc Hf. destruct w as [ps sk cf fs ck ks dr]. simpl in Hc, Hf. subst fs.
  assert (cf <> ∅) as Hne by (intros ->; by rewrite lookup_empty in Hc).
  cbv zeta. unfold DeleteConfiguration, DropCollection. run.
  rewrite decide_False by exact Hne. sim.
  split; [reflexivity |]. split; [reflexivity |].
  split; [reflexivity |]. split; [reflexivity |].
  rewrite GetOrCreateConfiguration_eq, getConfiguration_eq. run.
  rewrite lookup_empty, decide_True by reflexivity.
  unfold attemptToCreateConfiguration. run. rewrite lookup_empty. sim.
  rewrite getConfiguration_eq. run. rewrite lookup_insert_eq. sim.
  split; [reflexivity | apply lookup_insert_eq].
Qed.

Lemma DeleteConfiguration_then_GetOrCreateConfiguration_witness :
  let w := snd (GetOrCreateConfiguration (emptyWorld 100 exampleKeys)) in
  let w1 := snd (DeleteConfiguration w) in
  fst (DeleteConfiguration w) = None
  /\ configuration w1 = ∅
  /\ profiles w1 = profiles w /\ skills w1 = skills w
  /\ fst (GetOrCreateConfiguration w1) = (NewConfiguration "key-1", None)
  /\ configuration (snd (GetOrCreateConfiguration w1)) !! "configuration"
     = Some (NewConfiguration "key-1").
Proof.
  exact (DeleteConfiguration_then_GetOrCreateConfiguration
           (snd (GetOrCreateConfiguration (emptyWorld 100 exampleKeys)))
           (NewConfiguration "key-0") eq_refl eq_refl).
Defined.

(** ** Updates, whatever the storage calls do *)

(** X24.  Whenever [UpdateProfile] returns a profile with a nil error, that
    profile has the availability of the update, the reading of the clock
    as its time of last update and the domain of the address of the update
    as its domain, and it is what is stored under its address. *)
Theorem UpdateProfile_success_fields
  (update : ProfileUpdate.t) (w w' : World) (p' : Profile.t) :
  UpdateProfile update w = (Returns (Some p', None), w') ->
  Profile.Availability p' = ProfileUpdate.Availability update
  /\ Profile.LastUpdated p' = clock w
  /\ getDomain (ProfileUpdate.EmailAddress update) = Some (Profile.Domain p')
  /\ profiles w' !! Profile.EmailAddress p' = Some p'.
Proof.
  rewrite UpdateProfile_eq. cbv zeta.
  destruct (faultAt 0 w); [intros [=] |]. destruct (faultAt 1 w); [intros [=] |].
  destruct (getDomain (ProfileUpdate.EmailAddress update)); [| intros [=]].
  destruct (faultAt 3 w); [intros [=] |].
  intros [= <- <-]. sim. repeat split. apply lookup_insert_eq.
Qed.

Lemma UpdateProfile_success_fields_witness :
  let update := ProfileUpdate.mk "bob@x.com" [Skill.mk "rust" 4] "busy" in
  let p' := Profile.mk "bob@x.com" "x.com" [Skill.mk "rust" 4]
              [SkillLevel.mk 100 [Skill.mk "go" 3]] "busy" 2 200 in
  Profile.Availability p' = ProfileUpdate.Availability update
  /\ Profile.LastUpdated p' = clock bobWorld
  /\ getDomain (ProfileUpdate.EmailAddress update) = Some (Profile.Domain p')
  /\ profiles (snd (UpdateProfile update bobWorld)) !! Profile.EmailAddress p' = Some p'.
Proof.
  exact (UpdateProfile_success_fields
           (ProfileUpdate.mk "bob@x.com" [Skill.mk "rust" 4] "busy")
           bobWorld _ _ eq_refl).
Defined.

Lemma wrapInt_small (z : Z) : - 2 ^ 63 <= z < 2 ^ 63 -> wrapInt z = z.
Proof. intros Hz. unfold wrapInt. rewrite Z.mod_small; lia. Qed.

(** X25.  When the read inside [UpdateProfile] finds the stored profile
    and the update returns a nil error, the version returned is the stored
    version plus one as a Go [int] holds it, which is the stored version
    plus one unless the stored version is the largest [int]; and the
    history returned is the stored history, followed by one entry with the
    stored skills and their date when there were stored skills, and by
    nothing when there were none. *)
Theorem UpdateProfile_rolls_over_when_read_works
  (update : ProfileUpdate.t) (w w' : World) (p p' : Profile.t) :
  profiles w !! ProfileUpdate.EmailAddress update = Some p ->
  faultAt 2 w = None ->
  UpdateProfile update w = (Returns (Some p', None), w') ->
  Profile.Version p' = wrapInt (Profile.Version p + 1)
  /\ (- 2 ^ 63 <= Profile.Version p < 2 ^ 63 - 1 ->
      Profile.Version p' = Profile.Version p + 1)
  /\ Profile.SkillsHistory p'
     = (Profile.SkillsHistory p
        ++ match Profile.Skills p with
           | [] => []
           | _ :: _ => [SkillLevel.mk (Profile.LastUpdated p) (Profile.Skills p)]
           end)%list.
Proof.
  intros Hp H2. rewrite UpdateProfile_eq. cbv zeta. rewrite H2, Hp.
  destruct (faultAt 0 w); [intros [=] |]. destruct (faultAt 1 w); [intros [=] |].
  destruct (getDomain (ProfileUpdate.EmailAddress update)); [| intros [=]].
  destruct (faultAt 3 w); [intros [=] |].
  intros [= <- <-]. cbn [Profile.Version Profile.SkillsHistory default from_option id].
  split; [reflexivity |]. split; [intros Hv; apply wrapInt_small; lia |].
  unfold rolledHistory.
  destruct (Profile.Skills p); simpl; [by rewrite app_nil_r | reflexivity].
Qed.

Lemma UpdateProfile_rolls_over_when_read_works_witness :
  let p' := Profile.mk "bob@x.com" "x.com" [Skill.mk "rust" 4]
              [SkillLevel.mk 100 [Skill.mk "go" 3]] "busy" 2 200 in
  Profile.Version p' = wrapInt (Profile.Version bob + 1)
  /\ (- 2 ^ 63 <= Profile.Version bob < 2 ^ 63 - 1 ->
      Profile.Version p' = Profile.Version bob + 1)
  /\ Profile.SkillsHistory p'
     = (Profile.SkillsHistory bob
        ++ match Profile.Skills bob with
           | [] => []
           | _ :: _ => [SkillLevel.mk (Profile.LastUpdated bob) (Profile.Skills bob)]
           end)%list.
Proof.
  exact (UpdateProfile_rolls_over_when_read_works
           (ProfileUpdate.mk "bob@x.com" [Skill.mk "rust" 4] "busy")
           bobWorld _ bob _ eq_refl eq_refl eq_refl).
Defined.

(** X26.  [ListProfiles] panics exactly when its connection is made and no
    ["@"] occurs in the caller's address; a failed connection is returned
    as an error before the address is looked at. *)
Theorem ListProfiles_panics_iff (emailAddress : string) (w : World) :
  (fst (ListProfiles emailAddress w) = Panics
   <-> faultAt 0 w = None /\ hasByte "@" emailAddress = false)
  /\ (forall f, faultAt 0 w = Some f ->
        fst (ListProfiles emailAddress w) = Returns ([], Some (ErrFailure f))).
Proof.
  rewrite ListProfiles_eq.
  pose proof (Split_second_piece emailAddress "@") as Hat.
  unfold getDomain in *. split.
  - destruct (faultAt 0 w); [split; [done | intros [? _]; done] |].
    destruct (strings.Split emailAddress "@" !! 1%nat).
    + cbv zeta. destruct (faultAt 1 w); (split; [done | intros [_ H]]);
        apply Hat in H; done.
    + split; [intros _ | done]. split; [reflexivity | by apply Hat].
  - intros f ->. reflexivity.
Qed.

Lemma ListProfiles_panics_iff_witness :
  (fst (ListProfiles "bob" bobWorld) = Panics
   <-> faultAt 0 bobWorld = None /\ hasByte "@" "bob" = false)
  /\ fst (ListProfiles "bob" (set_faults [Some ConnectionRefused] bobWorld))
     = Returns ([], Some (ErrFailure ConnectionRefused)).
Proof.
  split.
  - exact (proj1 (ListProfiles_panics_iff "bob" bobWorld)).
  - exact (proj2 (ListProfiles_panics_iff "bob"
                    (set_faults [Some ConnectionRefused] bobWorld))
             ConnectionRefused eq_refl).
Defined.

(** ** What the tag and configuration operations leave alone *)

Lemma AddSkillTags_loop_footprint (tags : list string) :
  forall w : World,
    profiles (snd (AddSkillTags_loop tags w)) = profiles w
    /\ configuration (snd (AddSkillTags_loop tags w)) = configuration w.
Proof.
  induction tags as [|t tags IH]; intros w; [done |].
  destruct w as [ps sk cf fs ck ks dr]. simpl AddSkillTags_loop.
  destruct fs as [|[f|] fs]; run; try done; apply IH.
Qed.

Lemma DeleteSkillTags_loop_footprint (tags : list string) :
  forall w : World,
    profiles (snd (DeleteSkillTags_loop tags w)) = profiles w
    /\ configuration (snd (DeleteSkillTags_loop tags w)) = configuration w.
Proof.
  induction tags as [|t tags IH]; intros w; [done |].
  destruct w as [ps sk cf fs ck ks dr]. simpl DeleteSkillTags_loop.
  destruct fs as [|[f|] fs]; run.
  - destruct (sk !! t); [apply IH |]. rewrite decide_True by reflexivity. apply IH.
  - by rewrite decide_False.
  - destruct (sk !! t); [apply IH |]. rewrite decide_True by reflexivity. apply IH.
Qed.

(** X27.  [AddSkillTags] and [DeleteSkillTags] touch nothing but the skill
    tags: whatever the tags and whatever the storage calls do, the profiles
    and the configuration are as before. *)
Theorem tag_operations_leave_profiles_and_configuration (tags : list string) (w : World) :
  (profiles (snd (AddSkillTags tags w)) = profiles w
   /\ configuration (snd (AddSkillTags tags w)) = configuration w)
  /\ (profiles (snd (DeleteSkillTags tags w)) = profiles w
      /\ configuration (snd (DeleteSkillTags tags w)) = configuration w).
Proof.
  destruct w as [ps sk cf fs ck ks dr]. unfold AddSkillTags, DeleteSkillTags.
  split; destruct fs as [|[f|] fs]; run; try done.
  - apply (AddSkillTags_loop_footprint tags (mkWorld ps sk cf [] ck ks dr)).
  - apply (AddSkillTags_loop_footprint tags (mkWorld ps sk cf fs ck ks dr)).
  - apply (DeleteSkillTags_loop_footprint tags (mkWorld ps sk cf [] ck ks dr)).
  - apply (DeleteSkillTags_loop_footprint tags (mkWorld ps sk cf fs ck ks dr)).
Qed.

Lemma attemptToCreateConfiguration_footprint (w : World) :
  profiles (snd (attemptToCreateConfiguration w)) = profiles w
  /\ skills (snd (attemptToCreateConfiguration w)) = skills w
  /\ forall k c, configuration w !! k = Some c ->
                 configuration (snd (attemptToCreateConfiguration w)) !! k = Some c.
Proof.
  destruct w as [ps sk cf fs ck ks dr]. unfold attemptToCreateConfiguration.
  destruct fs as [|[f|] [|[f'|] fs]]; run; try done;
    destruct (cf !! "configuration") eqn:Hc; sim; try done;
    (repeat split; intros k c Hk; rewrite lookup_insert_ne; [exact Hk |];
     intros <-; congruence).
Qed.

Lemma getConfiguration_stored (w : World) :
  stored (snd (getConfiguration w)) = stored w.
Proof.
  rewrite getConfiguration_eq.
  destruct (faultAt 0 w); [done |]. destruct (faultAt 1 w); [done |].
  cbv zeta. by destruct (configuration w !! "configuration").
Qed.

(** X28.  [GetOrCreateConfiguration] never changes or removes a document:
    whatever its storage calls do, the profiles and the skill tags are as
    before and every configuration document stored before is stored
    after.  [DeleteConfiguration] leaves the profiles and the skill tags
    as they were. *)
Theorem configuration_operations_footprint (w : World) :
  (profiles (snd (GetOrCreateConfiguration w)) = profiles w
   /\ skills (snd (GetOrCreateConfiguration w)) = skills w
   /\ forall k c, configuration w !! k = Some c ->
                  configuration (snd (GetOrCreateConfiguration w)) !! k = Some c)
  /\ (profiles (snd (DeleteConfiguration w)) = profiles w
      /\ skills (snd (DeleteConfiguration w)) = skills w).
Proof.
  split.
  - rewrite GetOrCreateConfiguration_eq.
    pose proof (getConfiguration_stored w) as Hw1.
    destruct (getConfiguration w) as [[c e] w1] eqn:Hget. cbn [snd] in Hw1.
    injection Hw1 as Hp Hs Hc.
    case_decide; [| cbn [snd]; by rewrite Hp, Hs, Hc].
    pose proof (attemptToCreateConfiguration_footprint w1) as (Hp' & Hs' & Hc').
    set (w2 := snd (attemptToCreateConfiguration w1)) in *.
    pose proof (getConfiguration_stored w2) as Hw3. injection Hw3 as Hp3 Hs3 Hc3.
    rewrite Hp3, Hs3, Hc3, Hp', Hs', Hp, Hs. repeat split.
    intros k c0 Hk. apply Hc'. by rewrite Hc.
  - destruct w as [ps sk cf fs ck ks dr]. unfold DeleteConfiguration, DropCollection.
    destruct fs as [|[f|] [|[f'|] fs]]; run; try done; by case_decide.
Qed.

Lemma configuration_operations_footprint_witness :
  let w := set_configuration {[ "other" := NewConfiguration "other-key" ]}
             (emptyWorld 100 exampleKeys) in
  configuration (snd (GetOrCreateConfiguration w)) !! "other"
  = Some (NewConfiguration "other-key").
Proof.
  exact (proj2 (proj2 (proj1 (configuration_operations_footprint
                                (set_configuration
                                   {[ "other" := NewConfiguration "other-key" ]}
                                   (emptyWorld 100 exampleKeys)))))
           "other" (NewConfiguration "other-key") eq_refl).
Defined.
